(** * fruit-classifier: preprocessing, file collection, splitting, training

    A shallow embedding of the custom code of the fruit-classifier
    pipeline ([preprocessing_utils.py], [train_utils.py]) together with
    the properties its specification states about it.

    Conventions.
    - A decoded image is the [uint8] array of shape (height, width,
      channels) that [cv2.imread] returns: nested lists of [Z].
    - A float tensor holds exact rationals ([Qc]); the rounding of
      binary floating point is not modelled.
    - The file system is a finite map from [Path.parts] to nodes.
    - Calls into external libraries (scikit-image, OpenCV, the [random]
      module, scikit-learn, Keras) are section variables constrained by
      the part of their documented behaviour that the code relies on;
      each section is instantiated further down by a small reference
      implementation. *)

From stdpp Require Import base option list sorting numbers strings gmap fin_maps.
From Stdlib Require Import QArith Qcanon Qround OrderedTypeEx.
From Stdlib Require Strings.Byte.

Local Open Scope Z_scope.

(** ** Exceptions and fallible computations *)

Inductive error :=
  | IndexError | ValueError | ZeroDivisionError
  | FileNotFoundError | FileExistsError | NotADirectoryError | NotFoundError
  | IOError | CopyError | DecodeError
  (* raised inside Keras at the end of an epoch that ran no step; its
     class depends on the release of Keras *)
  | KerasError.

Inductive result (A : Type) :=
  | Ok (a : A)
  | Err (e : error).
Arguments Ok {A} a.
Arguments Err {A} e.

Global Instance result_ret : MRet result := λ _ a, Ok a.
Global Instance result_bind : MBind result := λ _ _ k r,
  match r with Ok a => k a | Err e => Err e end.

Definition of_option {A} (e : error) (o : option A) : result A :=
  match o with Some a => Ok a | None => Err e end.

(** [mapM f l]: run [f] on every element, left to right, stopping at the
    first exception. *)
Fixpoint mapM {A B} (f : A → result B) (l : list A) : result (list B) :=
  match l with
  | [] => Ok []
  | a :: l' => b ← f a; bs ← mapM f l'; Ok (b :: bs)
  end.

(** ** Arrays of shape (height, width, channels) *)

Definition array3 (A : Type) := list (list (list A)).
Definition image := array3 Z.          (* dtype uint8 *)
Definition tensor := array3 Qc.        (* dtype float *)

Definition amap {A B} (f : A → B) (t : array3 A) : array3 B :=
  map (map (map f)) t.

(** [values t]: the entries of [t] in row-major order ([t.ravel()]). *)
Definition values {A} (t : array3 A) : list A := concat (concat t).

Definition has_shape {A} (h w c : nat) (t : array3 A) : Prop :=
  length t = h ∧
  Forall (λ row, length row = w ∧ Forall (λ px, length px = c) row) t.

(** A decoded image: at least one pixel, a full rectangle, 8-bit values. *)
Definition wf_image (h w c : nat) (img : image) : Prop :=
  (0 < h)%nat ∧ (0 < w)%nat ∧ has_shape h w c img ∧
  Forall (λ v, 0 ≤ v ≤ 255) (values img).

(** [full h w c v]: the array of shape (h, w, c) filled with [v]. *)
Definition full {A} (h w c : nat) (v : A) : array3 A :=
  replicate h (replicate w (replicate c v)).

(** [skimage.img_as_float] on one uint8 value. *)
Definition img_as_float (v : Z) : Qc := (Qc_of_Z v / Qc_of_Z 255)%Qc.

(** [keras.preprocessing.image.img_to_array]: same values, float dtype. *)
Definition img_to_array (img : image) : tensor := amap Qc_of_Z img.

(** ** File system *)

Definition path := list string.        (* Path.parts *)

Inductive node :=
  | File (content : list Byte.byte)
  | Dir.

Global Instance byte_eq_dec : EqDecision Byte.byte := Strings.Byte.byte_eq_dec.

Global Instance node_eq_dec : EqDecision node.
Proof. solve_decision. Defined.

Definition is_dir (fs : gmap path node) (p : path) : bool :=
  match fs !! p with Some Dir => true | _ => false end.

Definition is_file (fs : gmap path node) (p : path) : bool :=
  match fs !! p with Some (File _) => true | _ => false end.

(** [strictly_under d p]: [p] lies below directory [d] (and is not [d]). *)
Definition strictly_under (d p : path) : Prop := d `prefix_of` p ∧ p ≠ d.

Global Instance strictly_under_dec d p : Decision (strictly_under d p).
Proof. unfold strictly_under. apply _. Defined.

(** [p.parts[-2]]: the name of the directory holding [p]. *)
Definition parts_m2 (p : path) : result string :=
  of_option IndexError (last (removelast p)).

(** ** The order [sorted] puts on paths

    Paths compare as their tuples of parts, parts compare as strings:
    lexicographically, a proper prefix first. *)

Fixpoint lex_compare {A} (cmp : A → A → comparison) (l1 l2 : list A) : comparison :=
  match l1, l2 with
  | [], [] => Eq
  | [], _ :: _ => Lt
  | _ :: _, [] => Gt
  | a :: l1', b :: l2' =>
      match cmp a b with Eq => lex_compare cmp l1' l2' | c => c end
  end.

Definition path_compare : path → path → comparison :=
  lex_compare String.compare.

Definition path_le (p q : path) : Prop := path_compare p q ≠ Gt.

Global Instance path_le_dec : RelDecision path_le.
Proof.
  intros p q. unfold path_le.
  destruct (path_compare p q); [left|left|right]; congruence.
Defined.

(** [sorted(paths)] *)
Definition sorted (l : list path) : list path := merge_sort path_le l.

(** pathlib compares the parts after folding their case: as they are on
    POSIX, in lower case on Windows.  [casefold] is that folding of one
    part. *)
Definition path_le_on (casefold : string → string) (p q : path) : Prop :=
  path_le (casefold <$> p) (casefold <$> q).

Global Instance path_le_on_dec casefold : RelDecision (path_le_on casefold).
Proof. intros p q. unfold path_le_on. apply _. Defined.

Definition sorted_on (casefold : string → string) (l : list path) : list path :=
  merge_sort (path_le_on casefold) l.

Definition string_le (a b : string) : Prop := String.leb a b = true.

Global Instance string_le_dec : RelDecision string_le.
Proof. intros a b. unfold string_le. apply _. Defined.

(** ** Directory listings

    [scandir_order] stands for the order in which the operating system
    hands out directory entries; the code may not rely on it. *)

Section Listing.
Variable scandir_order : list path → list path.

Definition entries (fs : gmap path node) : list path := (map_to_list fs).*1.

(** [root.glob('**/*')]: everything below [root]; nothing at all when
    [root] is not a directory (pathlib raises no exception then). *)
Definition glob_rec (fs : gmap path node) (root : path) : list path :=
  if is_dir fs root
  then scandir_order (filter (strictly_under root) (entries fs))
  else [].

(** [d.glob('*')]: the immediate children of [d]. *)
Definition glob_children (fs : gmap path node) (d : path) : list path :=
  if is_dir fs d
  then scandir_order (filter (λ p, p ≠ [] ∧ removelast p = d) (entries fs))
  else [].
End Listing.

(** ** [fruit_classifier.utils.file_utils] *)

(** [rebase src dst p]: where the mirror of [p] (a path below [src])
    lands below [dst]. *)
Definition rebase (src dst p : path) : path := dst ++ drop (length src) p.

(** A file cannot be written where a directory stands, nor a directory
    made where a file stands. *)
Definition kind_clash (fs : gmap path node) (qn : path * node) : bool :=
  match fs !! qn.1, qn.2 with
  | Some Dir, File _ | Some (File _), Dir => true
  | _, _ => false
  end.

(** Modelled from the spec: [copytree] of [file_utils] is not among the
    sources; only its test and its caller are.  The specification has it
    "recursively mirror the raw tree into the clean directory
    (directories and files), preserving relative structure", failing
    with [IOError] when the source cannot be read and with [CopyError]
    when the mirror cannot be laid over what the destination holds.  The
    test calls it twice in a row on one destination and [main] creates
    the destination beforehand, so an existing destination is merged
    into: directories are kept, files are written over. *)
Definition copytree (fs : gmap path node) (src dst : path)
  : result (gmap path node) :=
  if negb (is_dir fs src) then Err IOError else
  let items := filter (λ pn, src `prefix_of` pn.1) (map_to_list fs) in
  let copies := map (λ pn, (rebase src dst pn.1, pn.2)) items in
  if existsb (kind_clash fs) copies then Err CopyError
  else Ok (list_to_map copies ∪ fs).

(** [mirror fs src dst q]: the node that mirroring [src] onto [dst]
    writes at [q], if it writes there at all. *)
Definition mirror (fs : gmap path node) (src dst q : path) : option node :=
  if decide (dst `prefix_of` q) then fs !! (src ++ drop (length dst) q)
  else None.

(** [overlay o1 o2]: what a path holds after a write [o1] (if any) over
    [o2]. *)
Definition overlay (o1 o2 : option node) : option node :=
  match o1 with Some n => Some n | None => o2 end.

(** ** [fruit_classifier.preprocessing.preprocessing_utils] *)

Section Sanitizer.
(** The module imports [win32api], so it is one for Windows, where
    [sorted] orders paths without regard to case; [casefold] keeps the
    model open to either flavour of pathlib. *)
Variable casefold : string → string.
Variable scandir_order : list path → list path.
(** [decode]: OpenCV's codecs, from the bytes of a file to an image;
    [None] for bytes that are no image. *)
Variable decode : list Byte.byte → option image.

(** [cv2.imread(str(p))]: [None] when the file is missing or no image. *)
Definition cv2_imread (fs : gmap path node) (p : path) : option image :=
  match fs !! p with Some (File c) => decode c | _ => None end.

(** [p.unlink()] *)
Definition unlink (fs : gmap path node) (p : path) : result (gmap path node) :=
  if is_file fs p then Ok (delete p fs) else Err FileNotFoundError.

(** The loop over [image_paths]; [log] collects the paths printed as
    "Un-linking ...". *)
Fixpoint check_images (image_paths : list path) (fs : gmap path node)
    (log : list path) : result (gmap path node * list path) :=
  match image_paths with
  | [] => Ok (fs, log)
  | image_path :: rest =>
      match cv2_imread fs image_path with
      | None =>
          fs' ← unlink fs image_path;
          check_images rest fs' (log ++ [image_path])
      | Some _ => check_images rest fs log
      end
  end.

(** What [remove_non_images] leaves behind: the file system, the paths
    it un-linked, and the lines "n_clean/n_raw remaining in c". *)
Record sanitized := {
  fs_after : gmap path node;
  unlinked : list path;
  report : list (nat * nat * path)
}.

Definition remove_non_images (fs : gmap path node) (raw_dir clean_dir : path)
  : result sanitized :=
  fs ← copytree fs raw_dir clean_dir;
  (* Find all image_paths *)
  let image_paths := sorted_on casefold (glob_rec scandir_order fs clean_dir) in
  let image_paths := filter (λ image_path, is_file fs image_path) image_paths in
  '(fs, log) ← check_images image_paths fs [];
  let raw_dirs := sorted_on casefold (glob_children scandir_order fs raw_dir) in
  let raw_dirs := filter (λ d, is_dir fs d) raw_dirs in
  let clean_dirs := sorted_on casefold (glob_children scandir_order fs clean_dir) in
  let clean_dirs := filter (λ d, is_dir fs d) clean_dirs in
  let lines :=
    map (λ rc, (length (glob_children scandir_order fs rc.2),
                length (glob_children scandir_order fs rc.1), rc.2))
        (zip raw_dirs clean_dirs) in
  Ok {| fs_after := fs; unlinked := log; report := lines |}.
End Sanitizer.

(** [undecodable decode fs q]: [q] is a file of [fs] that [cv2.imread]
    cannot decode. *)
Definition undecodable (decode : list Byte.byte → option image)
    (fs : gmap path node) (q : path) : bool :=
  match fs !! q with
  | Some (File c) => match decode c with None => true | Some _ => false end
  | _ => false
  end.

Section Preprocess.
(** [skimage.transform.resize(image, output_shape, mode='reflect',
    anti_aliasing=True)] *)
Variable resize : image → nat * nat → tensor.

Definition preprocess_image (image : image) : tensor :=
  let preprocessed_image := resize image (28, 28)%nat in
  let preprocessed_image :=
    amap (λ x, (x / Qc_of_Z 255)%Qc) preprocessed_image in
  preprocessed_image.
End Preprocess.

(** [get_image_generator] and the generator built in [get_model_input]:
    the settings handed to [ImageDataGenerator]. *)
Record ImageDataGenerator := {
  rotation_range : Z;
  width_shift_range : Qc;
  height_shift_range : Qc;
  shear_range : Qc;
  zoom_range : Qc;
  horizontal_flip : bool;
  fill_mode : string
}.

Definition tenth : Qc := (1 / Qc_of_Z 10)%Qc.
Definition fifth : Qc := (1 / Qc_of_Z 5)%Qc.

Definition get_image_generator : ImageDataGenerator :=
  {| rotation_range := 30;
     width_shift_range := tenth;
     height_shift_range := tenth;
     shear_range := fifth;
     zoom_range := fifth;
     horizontal_flip := true;
     fill_mode := "nearest" |}.

(** ** [fruit_classifier.train.train_utils] *)

(** [x[i], x[j] = x[j], x[i]] *)
Definition swap {A} (x : list A) (i j : nat) : result (list A) :=
  match x !! i, x !! j with
  | Some a, Some b => Ok (<[j:=a]> (<[i:=b]> x))
  | _, _ => Err IndexError
  end.

Section Collector.
Variable scandir_order : list path → list path.
(** The generator behind the [random] module: [seed a] is the state
    that [random.seed(a)] installs, [randbelow g n] draws an index below
    [n] and moves the state on. *)
Variable rng : Type.
Variable seed : Z → rng.
Variable randbelow : rng → nat → nat * rng.

(** [random.shuffle(x)]:
    [for i in reversed(range(1, len(x))): j = randbelow(i + 1); swap]. *)
Fixpoint shuffle_from {A} (i : nat) (x : list A) (g : rng)
  : result (list A * rng) :=
  match i with
  | O => Ok (x, g)
  | S i' =>
      let '(j, g') := randbelow g (i + 1) in
      x' ← swap x i j;
      shuffle_from i' x' g'
  end.

Definition shuffle {A} (x : list A) (g : rng) : result (list A * rng) :=
  shuffle_from (length x - 1) x g.

(** [get_image_paths(path)]; [g] is the state of the module-wide
    generator at the call, the second component of the result its state
    afterwards. *)
Definition get_image_paths (fs : gmap path node) (g : rng) (path : path)
  : result (list (list string) * rng) :=
  let image_paths := sorted (glob_rec scandir_order fs path) in
  let image_paths := filter (λ p, is_file fs p) image_paths in
  let g := seed 42 in
  shuffle image_paths g.
End Collector.

Section DataAndLabels.
Variable decode : list Byte.byte → option image.
(** [cv2.resize(image, dsize)] with [dsize = (width, height)] *)
Variable cv2_resize : image → nat * nat → image.

(** One round of the loop of [get_data_and_labels].  [cv2.resize]
    rejects the [None] that [cv2.imread] returns for a file it cannot
    decode. *)
Definition load_sample (fs : gmap path node) (image_path : path)
  : result (tensor * string) :=
  image ← of_option DecodeError (cv2_imread decode fs image_path);
  let image := cv2_resize image (28, 28)%nat in
  let image := img_to_array image in
  label ← parts_m2 image_path;
  Ok (image, label).

Definition get_data_and_labels (fs : gmap path node) (image_paths : list path)
  : result (list tensor * list string) :=
  samples ← mapM (load_sample fs) image_paths;
  (* Scale the raw pixel intensities to the range [0, 1] *)
  let data := map (amap (λ x, (x / Qc_of_Z 255)%Qc)) samples.*1 in
  let labels := samples.*2 in
  Ok (data, labels).
End DataAndLabels.

(** [LabelEncoder().fit_transform(labels)]: the position of each label
    among the sorted distinct labels. *)
Definition classes (labels : list string) : list string :=
  merge_sort string_le (remove_dups labels).

Fixpoint index_of (l : list string) (s : string) : nat :=
  match l with
  | [] => 0
  | a :: l' => if decide (a = s) then 0 else S (index_of l' s)
  end.

Definition fit_transform (labels : list string) : list nat :=
  map (index_of (classes labels)) labels.

(** [to_categorical(y, num_classes)] *)
Definition to_categorical (y : list nat) (num_classes : nat) : list (list Z) :=
  map (λ k, map (λ i, if decide (i = k) then 1 else 0) (seq 0 num_classes)) y.

(** [one_hot k n]: the row [to_categorical] makes for class [k] of [n]. *)
Definition one_hot (k n : nat) : list Z :=
  map (λ i, if decide (i = k) then 1 else 0) (seq 0 n).

(** [safe_indexing(a, idx)]: [a[idx]] for an array of indices. *)
Definition safe_indexing {A} (a : list A) (idx : list nat) : result (list A) :=
  mapM (λ i, of_option IndexError (a !! i)) idx.

Section Split.
(** [permutation s n]: [RandomState(s).permutation(n)], the shuffled
    indices scikit-learn's [ShuffleSplit] draws from a generator of its
    own, seeded with [random_state]. *)
Variable permutation : Z → nat → list nat.

(** [train_test_split(x, y, test_size=..., random_state=...)]:
    [n_test = ceil(test_size * n_samples)], the rest is for training, an
    empty training part is refused, and so are arrays of unequal length. *)
Definition train_test_split {A B} (x : list A) (y : list B)
    (test_size : Qc) (random_state : Z)
  : result (list A * list A * list B * list B) :=
  if negb (length x =? length y)%nat then Err ValueError else
  let n_samples := length x in
  let n_test := Z.to_nat (Qceiling (test_size * Qc_of_Z (Z.of_nat n_samples))%Qc) in
  let n_train := (n_samples - n_test)%nat in
  if (n_train =? 0)%nat then Err ValueError else
  let indices := permutation random_state n_samples in
  let ind_test := take n_test indices in
  let ind_train := take n_train (drop n_test indices) in
  x_train ← safe_indexing x ind_train;
  x_test ← safe_indexing x ind_test;
  y_train ← safe_indexing y ind_train;
  y_test ← safe_indexing y ind_test;
  Ok (x_train, x_test, y_train, y_test).

Record model_input := {
  x_train : list tensor;
  x_val : list tensor;
  y_train : list (list Z);
  y_val : list (list Z);
  image_generator : ImageDataGenerator
}.

Definition quarter : Qc := (1 / Qc_of_Z 4)%Qc.

Definition get_model_input (data : list tensor) (labels : list string)
  : result model_input :=
  let encoded_labels := fit_transform labels in
  let num_classes := length (remove_dups labels) in
  (* 75% of the data for training and the remaining 25% for testing *)
  '(x_train, x_val, y_train, y_val) ←
    train_test_split data encoded_labels quarter 42;
  let y_train := to_categorical y_train num_classes in
  let y_val := to_categorical y_val num_classes in
  Ok {| x_train := x_train; x_val := x_val;
        y_train := y_train; y_val := y_val;
        image_generator := get_image_generator |}.
End Split.

(** [p.mkdir(parents=True, exist_ok=True)]: make [p] and every missing
    ancestor.  A file in the way is an error: [NotADirectoryError] when
    it stands where an ancestor of [p] should, [FileExistsError] when it
    stands at [p] itself. *)
Fixpoint mkdir_from (base rest : path) (fs : gmap path node)
  : result (gmap path node) :=
  match rest with
  | [] => Ok fs
  | name :: rest' =>
      let p := base ++ [name] in
      if is_file fs p
      then Err (match rest' with
                | [] => FileExistsError
                | _ :: _ => NotADirectoryError
                end)
      else mkdir_from p rest' (<[p:=Dir]> fs)
  end.

Definition mkdir_parents (fs : gmap path node) (p : path)
  : result (gmap path node) :=
  mkdir_from [] p fs.

Section Trainer.
(** Keras: the compiled model, a batch, the metrics of one step or one
    evaluation ([logs]), and the endless iterator
    [image_generator.flow(x, y, batch_size)] with its [next]. *)
Variables (model batch logs flow_state : Type).
Variable flow : ImageDataGenerator → list tensor → list (list Z) → Z → flow_state.
Variable next_batch : flow_state → batch * flow_state.
Variable train_on_batch : model → batch → model * logs.
Variable evaluate : model → list tensor → list (list Z) → logs.
Variable serialize : model → list Byte.byte.
(** [Path(__file__).absolute().parent] *)
Variable here : path.

(** What [History] keeps of one epoch: the metrics of its steps and
    those of the validation data. *)
Record epoch_record := {
  batch_logs : list logs;
  val_logs : logs
}.

(** The inner loop of [fit_generator]:
    [while steps_done < steps_per_epoch]. *)
Fixpoint run_steps (steps : nat) (m : model) (gen : flow_state)
  : model * flow_state * list logs :=
  match steps with
  | O => (m, gen, [])
  | S k =>
      let '(b, gen) := next_batch gen in
      let '(m, l) := train_on_batch m b in
      let '(m, gen, ls) := run_steps k m gen in
      (m, gen, l :: ls)
  end.

(** The outer loop: [while epoch < epochs].  The validation data is
    evaluated after the last step of an epoch; an epoch that has no step
    to run ends in an exception (there is nothing to report at its
    end). *)
Fixpoint run_epochs (epochs steps : nat) (m : model) (gen : flow_state)
    (x_val : list tensor) (y_val : list (list Z))
  : result (model * list epoch_record) :=
  match epochs with
  | O => Ok (m, [])
  | S k =>
      match steps with
      | O => Err KerasError
      | S _ =>
          let '(m, gen, ls) := run_steps steps m gen in
          let v := evaluate m x_val y_val in
          '(m, history) ← run_epochs k steps m gen x_val y_val;
          Ok (m, {| batch_logs := ls; val_logs := v |} :: history)
      end
  end.

(** [model.fit_generator(gen, validation_data=..., steps_per_epoch=...,
    epochs=...)]; no epoch runs when [epochs] is not positive, and an
    epoch runs no step when [steps_per_epoch] is not positive. *)
Definition fit_generator (m : model) (gen : flow_state)
    (x_val : list tensor) (y_val : list (list Z))
    (steps_per_epoch epochs : Z) : result (model * list epoch_record) :=
  run_epochs (Z.to_nat epochs) (Z.to_nat steps_per_epoch) m gen x_val y_val.

(** [model.save(str(model_path))] *)
Definition save (m : model) (fs : gmap path node) (model_path : path)
  : result (gmap path node) :=
  if is_dir fs model_path then Err IOError
  else Ok (<[model_path := File (serialize m)]> fs).

(** [train_model]; [None] for [batch_size] or [epochs] takes the
    default of the signature. *)
Definition train_model (m : model) (image_generator : ImageDataGenerator)
    (x_train : list tensor) (y_train : list (list Z))
    (x_val : list tensor) (y_val : list (list Z))
    (batch_size epochs : option Z) (fs : gmap path node)
  : result (list epoch_record * model * gmap path node) :=
  let batch_size := default 32 batch_size in
  let epochs := default 25 epochs in
  if decide (batch_size = 0) then Err ZeroDivisionError else
  '(m, history) ←
    fit_generator m (flow image_generator x_train y_train batch_size)
      x_val y_val (Z.of_nat (length x_train) / batch_size) epochs;
  (* Save the model to disk *)
  let model_dir := here ++ ["generated_data"; "models"] in
  let model_path := model_dir ++ ["model.h5"] in
  fs ← (if is_dir fs model_dir then Ok fs else mkdir_parents fs model_dir);
  fs ← save m fs model_path;
  Ok (history, m, fs).

(** The first [k] batches an iterator hands out, and the iterator after
    them. *)
Fixpoint batches (k : nat) (gen : flow_state) : list batch :=
  match k with
  | O => []
  | S k' => let '(b, gen') := next_batch gen in b :: batches k' gen'
  end.

Fixpoint advance (k : nat) (gen : flow_state) : flow_state :=
  match k with
  | O => gen
  | S k' => advance k' (next_batch gen).2
  end.

(** One training step per batch of a list: the model reached and the
    metrics of the steps. *)
Fixpoint train_on (m : model) (bs : list batch) : model * list logs :=
  match bs with
  | [] => (m, [])
  | b :: bs' =>
      let '(m', l) := train_on_batch m b in
      let '(m'', ls) := train_on m' bs' in
      (m'', l :: ls)
  end.
End Trainer.

Arguments batches {batch flow_state} next_batch k gen.
Arguments advance {batch flow_state} next_batch k gen.
Arguments train_on {model batch logs} train_on_batch m bs.

(** ** Reference implementations of the library calls

    Small executable stand-ins that meet the contracts assumed of the
    libraries below; they show the contracts can be met and serve to run
    the code on concrete inputs. *)

(** Nearest-neighbour sampling to [oh] rows of [ow] pixels. *)
Definition nn_sample {A} (img : array3 A) (oh ow : nat) : array3 A :=
  let h := length img in
  let w := length (hd [] img) in
  map (λ i, map (λ j, nth (j * w / ow) (nth (i * h / oh) img []) [])
                (seq 0 ow))
      (seq 0 oh).

Definition nn_resize (img : image) (output_shape : nat * nat) : tensor :=
  amap img_as_float (nn_sample img output_shape.1 output_shape.2).

Definition nn_cv2_resize (img : image) (dsize : nat * nat) : image :=
  nn_sample img dsize.2 dsize.1.

(** A decoder that takes the bytes after a JPEG start-of-image marker
    for one pixel value. *)
Definition magic_decode (c : list Byte.byte) : option image :=
  match c with
  | Byte.xff :: Byte.xd8 :: b :: _ => Some (full 1 1 3 (Z.of_N (Byte.to_N b)))
  | _ => None
  end.

(** A linear congruential generator. *)
Definition lcg_randbelow (g : Z) (n : nat) : nat * Z :=
  let g' := (g * 1103515245 + 12345) `mod` 2147483648 in
  (Z.to_nat (g' `mod` Z.of_nat n), g').

Definition lcg_seed (a : Z) : Z := a.

Definition reversed_indices (s : Z) (n : nat) : list nat := reverse (seq 0 n).

(** The two foldings of pathlib: none on POSIX, lower case (of the
    letters A to Z here) on Windows. *)
Definition posix_casefold (s : string) : string := s.

Definition lower (a : Ascii.ascii) : Ascii.ascii :=
  let n := Ascii.N_of_ascii a in
  if ((65 <=? n) && (n <=? 90))%N then Ascii.ascii_of_N (n + 32) else a.

Fixpoint nt_casefold (s : string) : string :=
  match s with
  | EmptyString => EmptyString
  | String a s' => String (lower a) (nt_casefold s')
  end.

Definition as_listed (l : list path) : list path := l.
Definition listed_backwards (l : list path) : list path := reverse l.

(** A "model" that counts the steps it was trained for. *)
Definition count_flow (_ : ImageDataGenerator) (_ : list tensor)
  (_ : list (list Z)) (_ : Z) : nat := 0%nat.
Definition count_next (s : nat) : nat * nat := (s, S s).
Definition count_train (m : nat) (b : nat) : nat * nat := (S m, b).
Definition count_evaluate (m : nat) (_ : list tensor) (_ : list (list Z)) : nat := m.
Definition count_serialize (m : nat) : list Byte.byte := [].

(** The files below [root], in the order [sorted] gives them, for a
    system that lists entries in the order the map holds them. *)
Definition files_below (fs : gmap path node) (root : path) : list path :=
  filter (λ p, is_file fs p) (sorted (glob_rec as_listed fs root)).

(** ** Sample inputs *)

Definition jpeg (b : Byte.byte) : list Byte.byte := [Byte.xff; Byte.xd8; b].
Definition not_an_image : list Byte.byte := [Byte.x68; Byte.x69].

Definition white : image := full 1 1 3 255.

(** Five one-entry samples of two classes. *)
Definition data5 : list tensor :=
  map (λ v, full 1 1 1 (Qc_of_Z v)) [0; 1; 2; 3; 4].
Definition labels5 : list string :=
  ["apple"; "banana"; "apple"; "banana"; "apple"].

(** Forty-three samples of one class. *)
Definition data43 : list tensor := replicate 43 (full 1 1 1 0%Qc).
Definition labels43 : list string := replicate 43 "apple".

(** Four equal samples under two labels. *)
Definition data_same : list tensor := replicate 4 (full 1 1 1 0%Qc).
Definition labels_ab : list string := ["a"; "b"; "a"; "b"].

(** Two rows of three pixels. *)
Definition sample_image : image :=
  [ [ [0; 128; 255]; [10; 20; 30]; [7; 7; 7] ];
    [ [1; 2; 3]; [4; 5; 6]; [250; 251; 252] ] ].

Definition fs_white : gmap path node :=
  list_to_map [ (["clean"], Dir); (["clean"; "apple"], Dir);
                (["clean"; "apple"; "w.jpg"], File (jpeg Byte.xff)) ].

(** [data/raw] lies inside [data]. *)
Definition fs_nested : gmap path node :=
  list_to_map [ (["data"], Dir); (["data"; "raw"], Dir);
                (["data"; "raw"; "notes.txt"], File not_an_image) ].

(** [raw] and [clean] side by side; [raw] holds one image and one file
    that is no image. *)
Definition fs_apart : gmap path node :=
  list_to_map [ (["raw"], Dir); (["raw"; "apple"], Dir);
                (["raw"; "apple"; "a.jpg"], File (jpeg Byte.x10));
                (["raw"; "apple"; "notes.txt"], File not_an_image) ].

(** [raw/clean] lies inside [raw]. *)
Definition fs_clean_in_raw : gmap path node :=
  list_to_map [ (["raw"], Dir); (["raw"; "a.jpg"], File (jpeg Byte.x10)) ].

(** [data/raw] lies inside [data] and holds a directory of its own
    name. *)
Definition fs_raw_in_clean : gmap path node :=
  list_to_map [ (["data"], Dir); (["data"; "raw"], Dir);
                (["data"; "raw"; "raw"], Dir);
                (["data"; "raw"; "raw"; "a.jpg"], File (jpeg Byte.x10)) ].

(** Names in both cases: the files that are no images are [B.txt] and
    [a.txt]. *)
Definition fs_mixed_case : gmap path node :=
  list_to_map [ (["raw"], Dir); (["raw"; "apple"], Dir);
                (["raw"; "apple"; "B.txt"], File not_an_image);
                (["raw"; "apple"; "a.txt"], File not_an_image);
                (["raw"; "apple"; "c.jpg"], File (jpeg Byte.x10)) ].

Definition fs_only_dirs : gmap path node :=
  list_to_map [ (["clean"], Dir); (["clean"; "apple"], Dir) ].

(** ** Two statements of the specification, as it words them *)

(** "every file and directory under the raw directory is unchanged" *)
Definition raw_unchanged (fs fs' : gmap path node) (raw_dir : path) : Prop :=
  ∀ p : path, raw_dir `prefix_of` p → fs' !! p = fs !! p.

(** "fails with NotFoundError when the root directory does not exist" *)
Definition missing_root_fails {rng} (scandir_order : list path → list path)
    (seed : Z → rng) (randbelow : rng → nat → nat * rng)
    (fs : gmap path node) (g : rng) (root : path) : Prop :=
  fs !! root = None →
  get_image_paths scandir_order rng seed randbelow fs g root = Err NotFoundError.


(** * Properties *)

(** ** The order on paths is a total order, so sorting is canonical *)

Section lex.
Context {A : Type} (cmp : A → A → comparison).
Hypothesis cmp_eq : ∀ a b, cmp a b = Eq ↔ a = b.
Hypothesis cmp_antisym : ∀ a b, cmp a b = CompOpp (cmp b a).
Hypothesis cmp_trans : ∀ a b c, cmp a b = Lt → cmp b c = Lt → cmp a c = Lt.

Lemma lex_compare_eq l1 l2 : lex_compare cmp l1 l2 = Eq ↔ l1 = l2.
Proof.
  revert l2. induction l1 as [|a l1 IH]; intros [|b l2]; simpl; try easy.
  destruct (cmp a b) eqn:E.
  - apply cmp_eq in E as ->. rewrite IH. split; congruence.
  - split; [done|]. intros [= -> _]. rewrite (proj2 (cmp_eq b b)) in E; done.
  - split; [done|]. intros [= -> _]. rewrite (proj2 (cmp_eq b b)) in E; done.
Qed.

Lemma lex_compare_antisym l1 l2 :
  lex_compare cmp l1 l2 = CompOpp (lex_compare cmp l2 l1).
Proof.
  revert l2. induction l1 as [|a l1 IH]; intros [|b l2]; simpl; try easy.
  rewrite (cmp_antisym a b). destruct (cmp b a); simpl; auto.
Qed.

Lemma lex_compare_trans l1 l2 l3 :
  lex_compare cmp l1 l2 = Lt → lex_compare cmp l2 l3 = Lt → lex_compare cmp l1 l3 = Lt.
Proof.
  revert l2 l3. induction l1 as [|a l1 IH]; intros [|b l2] [|c l3]; simpl;
    try easy.
  destruct (cmp a b) eqn:Eab; try easy.
  - apply cmp_eq in Eab as ->. destruct (cmp b c); try easy. apply IH.
  - destruct (cmp b c) eqn:Ebc; try easy.
    + apply cmp_eq in Ebc as ->. by rewrite Eab.
    + by rewrite (cmp_trans _ _ _ Eab Ebc).
Qed.
End lex.

Lemma string_compare_trans a b c :
  String.compare a b = Lt → String.compare b c = Lt → String.compare a c = Lt.
Proof.
  intros H1 H2. apply String_as_OT.cmp_lt in H1, H2. apply String_as_OT.cmp_lt.
  eapply String_as_OT.lt_trans; eauto.
Qed.

Lemma path_compare_eq p q : path_compare p q = Eq ↔ p = q.
Proof. apply lex_compare_eq, String_as_OT.cmp_eq. Qed.

Lemma path_compare_antisym p q : path_compare p q = CompOpp (path_compare q p).
Proof. apply lex_compare_antisym, String_as_OT.cmp_antisym. Qed.

Global Instance path_le_total : Total path_le.
Proof.
  intros p q. unfold path_le. rewrite (path_compare_antisym q p).
  destruct (path_compare p q); simpl; auto.
Qed.

Global Instance path_le_antisym : AntiSymm (=) path_le.
Proof.
  intros p q. unfold path_le. rewrite (path_compare_antisym q p).
  destruct (path_compare p q) eqn:E; simpl; try done.
  intros _ _. by apply path_compare_eq.
Qed.

Global Instance path_le_trans : Transitive path_le.
Proof.
  intros p q r. unfold path_le. intros Hpq Hqr.
  destruct (path_compare p q) eqn:E1; [| |done].
  - by apply path_compare_eq in E1 as ->.
  - destruct (path_compare q r) eqn:E2; [| |done].
    + by apply path_compare_eq in E2 as <-; rewrite E1.
    + unfold path_compare in *.
      pose proof (lex_compare_trans String.compare String_as_OT.cmp_eq
                    string_compare_trans _ _ _ E1 E2) as E3.
      congruence.
Qed.

Lemma sorted_perm_eq l1 l2 : l1 ≡ₚ l2 → sorted l1 = sorted l2.
Proof.
  intros Hp. apply (Sorted_unique path_le).
  - apply Sorted_merge_sort, _.
  - apply Sorted_merge_sort, _.
  - unfold sorted. by rewrite !merge_sort_Permutation.
Qed.

Lemma sorted_perm l : sorted l ≡ₚ l.
Proof. apply merge_sort_Permutation. Qed.

Global Instance path_le_on_total casefold : Total (path_le_on casefold).
Proof. intros p q. unfold path_le_on. apply path_le_total. Qed.

Global Instance path_le_on_trans casefold : Transitive (path_le_on casefold).
Proof. intros p q r. unfold path_le_on. apply path_le_trans. Qed.

Lemma sorted_on_perm casefold l : sorted_on casefold l ≡ₚ l.
Proof. apply merge_sort_Permutation. Qed.

Lemma sorted_on_sorted casefold l :
  StronglySorted (path_le_on casefold) (sorted_on casefold l).
Proof. apply StronglySorted_merge_sort; apply _. Qed.

(** ** Facts about arrays *)

Lemma Forall_values {A} (P : A → Prop) (t : array3 A) :
  Forall P (values t) ↔ Forall (Forall (Forall P)) t.
Proof.
  unfold values. rewrite Forall_concat. split.
  - intros H. induction t as [|r t IH]; [constructor|].
    simpl in H. apply Forall_app in H as [H1 H2]. constructor; auto.
  - intros H. induction H; simpl; [constructor|]. apply Forall_app; auto.
Qed.

Lemma Forall_values_amap {A B} (f : A → B) (P : B → Prop) (t : array3 A) :
  Forall P (values (amap f t)) ↔ Forall (λ a, P (f a)) (values t).
Proof.
  rewrite !Forall_values. unfold amap.
  rewrite Forall_fmap. apply Forall_proper; [|done]. intros row. simpl.
  rewrite Forall_fmap. apply Forall_proper; [|done]. intros px. simpl.
  by rewrite Forall_fmap.
Qed.

Lemma has_shape_amap {A B} (f : A → B) h w c (t : array3 A) :
  has_shape h w c t → has_shape h w c (amap f t).
Proof.
  unfold has_shape, amap. intros [Hl Hr]. split; [by rewrite length_map|].
  apply Forall_fmap. eapply Forall_impl; [exact Hr|].
  intros row [Hw Hc]. simpl. split; [by rewrite length_map|].
  apply Forall_fmap. eapply Forall_impl; [exact Hc|].
  intros px Hpx. simpl. by rewrite length_map.
Qed.

Lemma has_shape_values_length {A} h w c (t : array3 A) :
  has_shape h w c t → length (values t) = (h * w * c)%nat.
Proof.
  unfold has_shape, values. intros [<- Hr].
  induction Hr as [|row t [Hw Hc] _ IH]; [done|].
  assert (Hrow : length (concat row) = (w * c)%nat).
  { subst w. clear -Hc. induction Hc as [|px row Hpx _ IH]; [done|].
    simpl. rewrite length_app, IH, Hpx. lia. }
  simpl. rewrite concat_app, length_app, IH, Hrow. lia.
Qed.

(** Two arrays of one non-empty shape whose entries are all [a], resp.
    all [b], with [a ≠ b], are different arrays. *)
Lemma constant_arrays_differ {A} h w c (a b : A) (t1 t2 : array3 A) :
  (0 < h * w * c)%nat → a ≠ b →
  has_shape h w c t1 → has_shape h w c t2 →
  Forall (λ x, x = a) (values t1) → Forall (λ x, x = b) (values t2) →
  t1 ≠ t2.
Proof.
  intros Hpos Hab Hs1 Hs2 H1 H2 ->.
  apply has_shape_values_length in Hs2.
  destruct (values t2) as [|x l] eqn:E; [simpl in Hs2; lia|].
  inversion H1; inversion H2; congruence.
Qed.

(** ** Rational arithmetic used by the normalisation *)

Lemma img_as_float_0 : img_as_float 0 = 0%Qc.
Proof. by apply Qc_is_canon. Qed.

Lemma img_as_float_255 : img_as_float 255 = 1%Qc.
Proof. by apply Qc_is_canon. Qed.

Lemma div255_bounds (x : Qc) :
  (0 ≤ x ≤ 1)%Qc →
  (0 ≤ x / Qc_of_Z 255 ≤ 1 / Qc_of_Z 255)%Qc ∧ (x / Qc_of_Z 255 < 1)%Qc.
Proof.
  intros [H0 H1].
  assert (Hinv : (0 ≤ / Qc_of_Z 255)%Qc) by done.
  assert (Hlo : (0 ≤ x / Qc_of_Z 255)%Qc).
  { unfold Qcdiv. replace 0%Qc with (0 * / Qc_of_Z 255)%Qc by apply Qcmult_0_l.
    by apply Qcmult_le_compat_r. }
  assert (Hhi : (x / Qc_of_Z 255 ≤ 1 / Qc_of_Z 255)%Qc).
  { unfold Qcdiv. by apply Qcmult_le_compat_r. }
  split; [done|].
  eapply Qcle_lt_trans; [exact Hhi|]. done.
Qed.

(** ** The reference sampler meets the contracts of both resize calls *)

Lemma nn_sample_pixels {A} (Q : list A → Prop) h w c (img : array3 A) oh ow :
  (0 < h)%nat → (0 < w)%nat → has_shape h w c img →
  Forall (Forall Q) img → Forall (Forall Q) (nn_sample img oh ow).
Proof.
  intros Hh Hw [Hlen Hrows] HQ. unfold nn_sample.
  assert (Hw' : length (hd [] img) = w).
  { destruct img as [|r img]; [simpl in Hlen; lia|]. simpl.
    by inversion Hrows as [|?? [? _]]. }
  rewrite Hw', Hlen.
  apply Forall_fmap, Forall_forall. intros i Hi%elem_of_seq. simpl.
  apply Forall_fmap, Forall_forall. intros j Hj%elem_of_seq. simpl.
  assert (Hi' : (i * h / oh < length img)%nat).
  { rewrite Hlen. apply Nat.Div0.div_lt_upper_bound. nia. }
  assert (Hrow : length (nth (i * h / oh) img []) = w).
  { by apply (proj1 (Forall_nth _ [] img) Hrows (i * h / oh)%nat). }
  assert (Hj' : (j * w / ow < length (nth (i * h / oh) img []))%nat).
  { rewrite Hrow. apply Nat.Div0.div_lt_upper_bound. nia. }
  pose proof (proj1 (Forall_nth _ [] img) HQ (i * h / oh)%nat Hi') as HQrow.
  exact (proj1 (Forall_nth _ [] _) HQrow (j * w / ow)%nat Hj').
Qed.

Lemma nn_sample_shape {A} h w c (img : array3 A) oh ow :
  (0 < h)%nat → (0 < w)%nat → has_shape h w c img →
  has_shape oh ow c (nn_sample img oh ow).
Proof.
  intros Hh Hw Hs. split.
  - unfold nn_sample. by rewrite length_map, length_seq.
  - assert (HQ : Forall (Forall (λ px : list A, length px = c))
                   (nn_sample img oh ow)).
    { apply (nn_sample_pixels _ h w c); auto. destruct Hs as [_ Hr].
      eapply Forall_impl; [exact Hr|]. by intros ? [_ ?]. }
    unfold nn_sample in *. apply Forall_fmap, Forall_forall. intros i Hi. simpl.
    split; [by rewrite length_map, length_seq|].
    rewrite Forall_fmap, Forall_forall in HQ. exact (HQ i Hi).
Qed.

Lemma nn_sample_values {A} (P : A → Prop) h w c (img : array3 A) oh ow :
  (0 < h)%nat → (0 < w)%nat → has_shape h w c img →
  Forall P (values img) → Forall P (values (nn_sample img oh ow)).
Proof.
  intros Hh Hw Hs HP. apply Forall_values.
  apply (nn_sample_pixels _ h w c); auto. by apply Forall_values.
Qed.

Lemma img_as_float_mono (a b : Z) : a ≤ b → (img_as_float a ≤ img_as_float b)%Qc.
Proof.
  intros Hab. unfold img_as_float, Qcdiv.
  apply Qcmult_le_compat_r; [|done].
  unfold Qcle. simpl. rewrite <-Zle_Qle. done.
Qed.

Lemma nn_resize_shape img h w c oh ow :
  wf_image h w c img → has_shape oh ow c (nn_resize img (oh, ow)).
Proof.
  intros (Hh & Hw & Hs & _). unfold nn_resize. simpl.
  apply has_shape_amap. by apply (nn_sample_shape h w c).
Qed.

Lemma nn_resize_clip img h w c out lo hi :
  wf_image h w c img →
  Forall (λ v, lo ≤ v ≤ hi) (values img) →
  Forall (λ x, img_as_float lo ≤ x ≤ img_as_float hi)%Qc
         (values (nn_resize img out)).
Proof.
  intros (Hh & Hw & Hs & _) Hr. unfold nn_resize.
  apply Forall_values_amap.
  apply (nn_sample_values
           (λ v, img_as_float lo ≤ img_as_float v ≤ img_as_float hi)%Qc h w c);
    auto.
  eapply Forall_impl; [exact Hr|]. intros v [??]. simpl.
  split; by apply img_as_float_mono.
Qed.

Lemma nn_cv2_resize_shape img h w c ow oh :
  wf_image h w c img → has_shape oh ow c (nn_cv2_resize img (ow, oh)).
Proof. intros (Hh & Hw & Hs & _). by apply (nn_sample_shape h w c). Qed.

Lemma nn_cv2_resize_range img h w c dsize lo hi :
  wf_image h w c img →
  Forall (λ v, lo ≤ v ≤ hi) (values img) →
  Forall (λ v, lo ≤ v ≤ hi) (values (nn_cv2_resize img dsize)).
Proof. intros (Hh & Hw & Hs & _) Hr. by apply (nn_sample_values _ h w c). Qed.

Lemma wf_image_white : wf_image 1 1 3 white.
Proof.
  repeat split; try lia; repeat constructor; done.
Qed.

Lemma wf_image_sample : wf_image 2 3 3 sample_image.
Proof.
  repeat split; try lia; repeat constructor; done.
Qed.

(** ** The Preprocessor *)

Section PreprocessProps.
Variable resize : image → nat * nat → tensor.
(** scikit-image: the output has the requested height and width and the
    channels of the input. *)
Hypothesis resize_shape : ∀ img h w c oh ow,
  wf_image h w c img → has_shape oh ow c (resize img (oh, ow)).
(** scikit-image: the input is converted with [img_as_float]
    ([preserve_range=False]) and the output is clipped to the range of
    the input ([clip=True]). *)
Hypothesis resize_clip : ∀ img h w c out lo hi,
  wf_image h w c img →
  Forall (λ v, lo ≤ v ≤ hi) (values img) →
  Forall (λ x, img_as_float lo ≤ x ≤ img_as_float hi)%Qc
         (values (resize img out)).

Lemma preprocess_image_values img h w c :
  wf_image h w c img →
  Forall (λ x, (0 ≤ x ≤ 1 / Qc_of_Z 255)%Qc ∧ (x < 1)%Qc)
         (values (preprocess_image resize img)).
Proof.
  intros Hwf. unfold preprocess_image. apply Forall_values_amap.
  pose proof (resize_clip img h w c (28, 28)%nat 0 255 Hwf
                (proj2 (proj2 (proj2 Hwf)))) as Hclip.
  rewrite img_as_float_0, img_as_float_255 in Hclip.
  eapply Forall_impl; [exact Hclip|]. intros x Hx. by apply div255_bounds.
Qed.

(** C2: whatever the height and width of a 3-channel image,
    [preprocess_image] returns a tensor of shape (28, 28, 3) with
    every value in [0, 1]. *)
Theorem preprocess_image_shape_and_unit_range img h w :
  wf_image h w 3 img →
  has_shape 28 28 3 (preprocess_image resize img) ∧
  Forall (λ x, 0 ≤ x ≤ 1)%Qc (values (preprocess_image resize img)).
Proof.
  intros Hwf. split.
  - unfold preprocess_image. apply has_shape_amap. by eapply resize_shape.
  - eapply Forall_impl; [by eapply preprocess_image_values|].
    intros x [[H0 _] H1]. simpl. split; [done|]. by apply Qclt_le_weak.
Qed.

(** C3: for an image of 8-bit values, every value [preprocess_image]
    returns is at most 1/255, the resize having scaled to [0, 1] before
    the division by 255; no value reaches 1. *)
Theorem preprocess_image_at_most_one_255th img h w c :
  wf_image h w c img →
  Forall (λ x, (x ≤ 1 / Qc_of_Z 255)%Qc ∧ (x < 1)%Qc)
         (values (preprocess_image resize img)).
Proof.
  intros Hwf. eapply Forall_impl; [by eapply preprocess_image_values|].
  by intros x [[_ ?] ?].
Qed.

Variable decode : list Byte.byte → option image.
Variable cv2_resize : image → nat * nat → image.
(** OpenCV: [dsize] is (width, height); the channels are kept. *)
Hypothesis cv2_resize_shape : ∀ img h w c ow oh,
  wf_image h w c img → has_shape oh ow c (cv2_resize img (ow, oh)).
(** OpenCV: bilinear interpolation stays within the range of the input
    and keeps the [uint8] scale. *)
Hypothesis cv2_resize_range : ∀ img h w c dsize lo hi,
  wf_image h w c img →
  Forall (λ v, lo ≤ v ≤ hi) (values img) →
  Forall (λ v, lo ≤ v ≤ hi) (values (cv2_resize img dsize)).

Lemma parts_m2_ok (p : path) :
  (2 ≤ length p)%nat → ∃ label, parts_m2 p = Ok label.
Proof.
  intros Hlen. unfold parts_m2.
  destruct (last (removelast p)) as [label|] eqn:E; [by eexists|].
  apply last_None in E. exfalso.
  destruct p as [|a [|b p]]; simpl in *; try lia. discriminate.
Qed.

(** C1, on the code: for a white image the training path
    ([get_data_and_labels]) stores 1 in every entry while
    [preprocess_image], used for prediction, yields 1/255 in every
    entry: the two transforms are not the same. *)
Theorem training_and_prediction_transforms_differ fs p img h w :
  cv2_imread decode fs p = Some img →
  (2 ≤ length p)%nat →
  wf_image h w 3 img →
  Forall (λ v, v = 255) (values img) →
  ∃ t label,
    get_data_and_labels decode cv2_resize fs [p] = Ok ([t], [label]) ∧
    Forall (λ x, x = 1%Qc) (values t) ∧
    Forall (λ x, x = (1 / Qc_of_Z 255)%Qc)
           (values (preprocess_image resize img)) ∧
    t ≠ preprocess_image resize img.
Proof.
  intros Hread Hlen Hwf Hwhite.
  destruct (parts_m2_ok p Hlen) as [label Hlabel].
  assert (Hrange : Forall (λ v, 255 ≤ v ≤ 255) (values img)).
  { eapply Forall_impl; [exact Hwhite|]. intros v ->. lia. }
  set (t := amap (λ x, (x / Qc_of_Z 255)%Qc)
                 (img_to_array (cv2_resize img (28, 28)%nat))).
  assert (Ht : Forall (λ x, x = 1%Qc) (values t)).
  { unfold t, img_to_array. rewrite !Forall_values_amap.
    eapply Forall_impl; [by eapply (cv2_resize_range img h w 3 _ 255 255)|].
    intros v Hv. simpl in *. assert (v = 255) as -> by lia.
    by apply Qc_is_canon. }
  assert (Hp : Forall (λ x, x = (1 / Qc_of_Z 255)%Qc)
                      (values (preprocess_image resize img))).
  { unfold preprocess_image. rewrite Forall_values_amap.
    eapply Forall_impl; [by eapply (resize_clip img h w 3 _ 255 255)|].
    intros x [Hlo Hhi]. simpl in *. rewrite img_as_float_255 in Hlo, Hhi.
    by rewrite (Qcle_antisym _ _ Hhi Hlo). }
  exists t, label. split; [|split; [done|split; [done|]]].
  - unfold get_data_and_labels, load_sample. simpl.
    rewrite Hread. simpl. rewrite Hlabel. done.
  - apply (constant_arrays_differ 28 28 3 1%Qc (1 / Qc_of_Z 255)%Qc);
      try done; [lia| |].
    + unfold t, img_to_array. do 2 apply has_shape_amap.
      by eapply cv2_resize_shape.
    + unfold preprocess_image. apply has_shape_amap. by eapply resize_shape.
Qed.
End PreprocessProps.

Lemma preprocess_image_shape_and_unit_range_witness :
  wf_image 2 3 3 sample_image ∧
  has_shape 28 28 3 (preprocess_image nn_resize sample_image) ∧
  Forall (λ x, 0 ≤ x ≤ 1)%Qc (values (preprocess_image nn_resize sample_image)).
Proof.
  split; [exact wf_image_sample|].
  exact (preprocess_image_shape_and_unit_range nn_resize nn_resize_shape
           nn_resize_clip sample_image 2 3 wf_image_sample).
Defined.

Lemma preprocess_image_at_most_one_255th_witness :
  wf_image 2 3 3 sample_image ∧
  Forall (λ x, (x ≤ 1 / Qc_of_Z 255)%Qc ∧ (x < 1)%Qc)
         (values (preprocess_image nn_resize sample_image)).
Proof.
  split; [exact wf_image_sample|].
  exact (preprocess_image_at_most_one_255th nn_resize nn_resize_clip
           sample_image 2 3 3 wf_image_sample).
Defined.

Lemma training_and_prediction_transforms_differ_witness :
  ∃ t label,
    get_data_and_labels magic_decode nn_cv2_resize fs_white
      [["clean"; "apple"; "w.jpg"]] = Ok ([t], [label]) ∧
    Forall (λ x, x = 1%Qc) (values t) ∧
    Forall (λ x, x = (1 / Qc_of_Z 255)%Qc)
           (values (preprocess_image nn_resize white)) ∧
    t ≠ preprocess_image nn_resize white.
Proof.
  apply (training_and_prediction_transforms_differ nn_resize nn_resize_shape
           nn_resize_clip magic_decode nn_cv2_resize nn_cv2_resize_shape
           nn_cv2_resize_range fs_white ["clean"; "apple"; "w.jpg"] white 1 1).
  - reflexivity.
  - simpl; lia.
  - exact wf_image_white.
  - repeat constructor.
Defined.

(** ** The File Collector *)

Lemma StronglySorted_filter {A} (R : relation A) (P : A → Prop)
    `{∀ x, Decision (P x)} (l : list A) :
  StronglySorted R l → StronglySorted R (filter P l).
Proof.
  induction 1 as [|x l Hl IH Hx]; [constructor|].
  rewrite filter_cons. destruct (decide (P x)); [|done].
  constructor; [done|].
  apply Forall_forall. intros y [_ Hy]%list_elem_of_filter.
  rewrite Forall_forall in Hx. auto.
Qed.

Lemma glob_rec_perm (so1 so2 : list path → list path) fs root :
  (∀ l, so1 l ≡ₚ l) → (∀ l, so2 l ≡ₚ l) →
  glob_rec so1 fs root ≡ₚ glob_rec so2 fs root.
Proof.
  intros H1 H2. unfold glob_rec. destruct (is_dir fs root); [|done].
  by rewrite H1, H2.
Qed.

Lemma elem_of_glob_rec (so : list path → list path) fs root p :
  (∀ l, so l ≡ₚ l) →
  p ∈ glob_rec so fs root ↔
  is_dir fs root = true ∧ strictly_under root p ∧ is_Some (fs !! p).
Proof.
  intros Hso. unfold glob_rec. destruct (is_dir fs root).
  - rewrite Hso, list_elem_of_filter. unfold entries.
    rewrite list_elem_of_fmap. split.
    + intros [Hu [[q n] [-> Hin%elem_of_map_to_list]]]. eauto.
    + intros (_ & Hu & [n Hn]). split; [done|].
      exists (p, n). split; [done|]. by apply elem_of_map_to_list.
  - split; [by intros ?%elem_of_nil|]. by intros [? _].
Qed.

Lemma NoDup_glob_rec (so : list path → list path) fs root :
  (∀ l, so l ≡ₚ l) → NoDup (glob_rec so fs root).
Proof.
  intros Hso. unfold glob_rec. destruct (is_dir fs root); [|constructor].
  rewrite Hso. apply NoDup_filter, NoDup_fst_map_to_list.
Qed.

Lemma files_below_sorted fs root : StronglySorted path_le (files_below fs root).
Proof.
  apply StronglySorted_filter. unfold sorted.
  apply StronglySorted_merge_sort; apply _.
Qed.

Lemma elem_of_files_below fs root p :
  p ∈ files_below fs root ↔
  is_dir fs root = true ∧ strictly_under root p ∧ is_file fs p = true.
Proof.
  unfold files_below. rewrite list_elem_of_filter, sorted_perm.
  rewrite (elem_of_glob_rec as_listed) by done.
  split.
  - intros (Hf & Hd & Hu & _). apply Is_true_true in Hf. done.
  - intros (Hd & Hu & Hf). split; [by apply Is_true_true|].
    split; [done|split; [done|]]. unfold is_file in Hf.
    destruct (fs !! p); [by eexists|done].
Qed.

Lemma filter_sorted_glob (so : list path → list path) fs root :
  (∀ l, so l ≡ₚ l) →
  filter (λ p, is_file fs p) (sorted (glob_rec so fs root)) = files_below fs root.
Proof.
  intros Hso. unfold files_below. f_equal. apply sorted_perm_eq.
  by apply glob_rec_perm.
Qed.

(** The paths the sanitizer checks: the files below the root, each
    once. *)
Lemma checked_paths (casefold : string → string) (so : list path → list path)
    fs root :
  (∀ l, so l ≡ₚ l) →
  NoDup (filter (λ p, is_file fs p) (sorted_on casefold (glob_rec so fs root))) ∧
  ∀ p, p ∈ filter (λ p, is_file fs p) (sorted_on casefold (glob_rec so fs root))
       ↔ is_dir fs root = true ∧ strictly_under root p ∧ is_file fs p = true.
Proof.
  intros Hso. split.
  - apply NoDup_filter. rewrite sorted_on_perm. by apply NoDup_glob_rec.
  - intros p. rewrite list_elem_of_filter, sorted_on_perm.
    rewrite (elem_of_glob_rec so) by done.
    split.
    + intros (Hf & Hd & Hu & _). apply Is_true_true in Hf. done.
    + intros (Hd & Hu & Hf). split; [by apply Is_true_true|].
      split; [done|split; [done|]]. unfold is_file in Hf.
      destruct (fs !! p); [by eexists|done].
Qed.

Section CollectorProps.
Variable scandir_order : list path → list path.
Variable rng : Type.
Variable seed : Z → rng.
Variable randbelow : rng → nat → nat * rng.
(** [randbelow g n] is an index below [n]. *)
Hypothesis randbelow_lt : ∀ g n, (0 < n)%nat → ((randbelow g n).1 < n)%nat.

Lemma swap_perm {A} (x : list A) i j :
  (i < length x)%nat → (j < length x)%nat →
  ∃ x', swap x i j = Ok x' ∧ x' ≡ₚ x.
Proof.
  intros Hi Hj. unfold swap.
  destruct (lookup_lt_is_Some_2 x i Hi) as [a Ha].
  destruct (lookup_lt_is_Some_2 x j Hj) as [b Hb].
  rewrite Ha, Hb. eexists. split; [done|].
  by apply Permutation_insert_swap.
Qed.

Lemma shuffle_from_perm {A} i (x : list A) g :
  (i < length x ∨ i = 0)%nat →
  ∃ x' g', shuffle_from rng randbelow i x g = Ok (x', g') ∧ x' ≡ₚ x.
Proof.
  revert x g. induction i as [|i IH]; intros x g Hi; cbn [shuffle_from].
  { by exists x, g. }
  pose proof (randbelow_lt g (S i + 1)%nat ltac:(lia)) as Hj.
  destruct (randbelow g (S i + 1)) as [j g']. cbn [fst] in Hj.
  destruct (swap_perm x (S i) j) as (x' & -> & Hp); [lia..|].
  cbn [mbind result_bind].
  destruct (IH x' g') as (x'' & g'' & -> & Hp').
  { left. rewrite Hp. lia. }
  exists x'', g''. split; [done|]. by rewrite Hp'.
Qed.

Lemma shuffle_perm {A} (x : list A) g :
  ∃ x' g', shuffle rng randbelow x g = Ok (x', g') ∧ x' ≡ₚ x.
Proof.
  unfold shuffle. apply shuffle_from_perm.
  destruct x; simpl; lia.
Qed.
End CollectorProps.

Lemma as_listed_perm l : as_listed l ≡ₚ l.
Proof. done. Qed.

Lemma listed_backwards_perm l : listed_backwards l ≡ₚ l.
Proof. apply reverse_Permutation. Qed.

Lemma lcg_randbelow_lt g n : (0 < n)%nat → ((lcg_randbelow g n).1 < n)%nat.
Proof.
  intros Hn. unfold lcg_randbelow. cbn [fst].
  pose proof (Z.mod_pos_bound ((g * 1103515245 + 12345) `mod` 2147483648)
                (Z.of_nat n) ltac:(lia)).
  lia.
Qed.

(** C8: [get_image_paths] depends on the directory contents alone, not
    on the order in which the system lists them nor on the state of the
    random generator at the call: it is the shuffle, seeded with 42, of
    the lexicographically sorted files below the root, and every path it
    returns is a file. *)
Theorem get_image_paths_deterministic
    (so1 so2 : list path → list path) (rng : Type) (seed : Z → rng)
    (randbelow : rng → nat → nat * rng) fs (g1 g2 : rng) (root : path) :
  (∀ l, so1 l ≡ₚ l) → (∀ l, so2 l ≡ₚ l) →
  (∀ g n, (0 < n)%nat → ((randbelow g n).1 < n)%nat) →
  get_image_paths so1 rng seed randbelow fs g1 root
    = get_image_paths so2 rng seed randbelow fs g2 root ∧
  get_image_paths so1 rng seed randbelow fs g1 root
    = shuffle rng randbelow (files_below fs root) (seed 42) ∧
  StronglySorted path_le (files_below fs root) ∧
  ∃ l g', get_image_paths so1 rng seed randbelow fs g1 root = Ok (l, g') ∧
          l ≡ₚ files_below fs root ∧
          Forall (λ p, is_file fs p = true ∧ strictly_under root p) l.
Proof.
  intros H1 H2 Hrb. unfold get_image_paths.
  rewrite !filter_sorted_glob by done.
  split; [done|]. split; [done|]. split; [apply files_below_sorted|].
  destruct (shuffle_perm rng randbelow Hrb (files_below fs root) (seed 42))
    as (l & g' & Hl & Hp).
  exists l, g'. split; [done|]. split; [done|].
  apply Forall_forall. intros p Hin. rewrite Hp in Hin.
  apply elem_of_files_below in Hin as (_ & ? & ?). done.
Qed.

Lemma get_image_paths_deterministic_witness :
  get_image_paths as_listed Z lcg_seed lcg_randbelow fs_apart 7 ["raw"]
    = get_image_paths listed_backwards Z lcg_seed lcg_randbelow fs_apart 2024 ["raw"] ∧
  get_image_paths as_listed Z lcg_seed lcg_randbelow fs_apart 7 ["raw"]
    = shuffle Z lcg_randbelow (files_below fs_apart ["raw"]) (lcg_seed 42) ∧
  StronglySorted path_le (files_below fs_apart ["raw"]) ∧
  ∃ l g', get_image_paths as_listed Z lcg_seed lcg_randbelow fs_apart 7 ["raw"]
            = Ok (l, g') ∧
          l ≡ₚ files_below fs_apart ["raw"] ∧
          Forall (λ p, is_file fs_apart p = true ∧ strictly_under ["raw"] p) l.
Proof.
  exact (get_image_paths_deterministic as_listed listed_backwards Z lcg_seed
           lcg_randbelow fs_apart 7 2024 ["raw"] as_listed_perm
           listed_backwards_perm lcg_randbelow_lt).
Defined.

(** C7, as the code has it: [get_image_paths] returns the empty
    sequence, without an error, both when the root does not exist and
    when it is a directory with no file below it. *)
Theorem get_image_paths_empty
    (so : list path → list path) (rng : Type) (seed : Z → rng)
    (randbelow : rng → nat → nat * rng) fs (g : rng) (root : path) :
  (∀ l, so l ≡ₚ l) →
  (fs !! root = None →
   get_image_paths so rng seed randbelow fs g root = Ok ([], seed 42)) ∧
  (is_dir fs root = true →
   (∀ p, strictly_under root p → is_file fs p = false) →
   get_image_paths so rng seed randbelow fs g root = Ok ([], seed 42)).
Proof.
  intros Hso. unfold get_image_paths. rewrite filter_sorted_glob by done.
  assert (Hnil : (∀ p, p ∉ files_below fs root) →
                 shuffle rng randbelow (files_below fs root) (seed 42)
                 = Ok ([], seed 42)).
  { intros Hno. destruct (files_below fs root) as [|p l]; [done|].
    destruct (Hno p). by left. }
  split.
  - intros Hroot. apply Hnil. intros p (Hd & _)%elem_of_files_below.
    unfold is_dir in Hd. by rewrite Hroot in Hd.
  - intros _ Hno. apply Hnil. intros p (_ & Hu & Hf)%elem_of_files_below.
    rewrite (Hno p Hu) in Hf. done.
Qed.

Lemma only_dirs_no_file (fs : gmap path node) p :
  map_Forall (λ _ n, n = Dir) fs → is_file fs p = false.
Proof.
  intros Hall. unfold is_file. destruct (fs !! p) as [[c|]|] eqn:E; try done.
  by specialize (Hall p _ E).
Qed.

Lemma get_image_paths_empty_witness :
  (fs_only_dirs !! ["missing"] = None ∧
   get_image_paths listed_backwards Z lcg_seed lcg_randbelow fs_only_dirs 7
     ["missing"] = Ok ([], lcg_seed 42)) ∧
  (is_dir fs_only_dirs ["clean"] = true ∧
   get_image_paths listed_backwards Z lcg_seed lcg_randbelow fs_only_dirs 7
     ["clean"] = Ok ([], lcg_seed 42)).
Proof.
  destruct (get_image_paths_empty listed_backwards Z lcg_seed lcg_randbelow
              fs_only_dirs 7 ["missing"] listed_backwards_perm) as [Hmissing _].
  destruct (get_image_paths_empty listed_backwards Z lcg_seed lcg_randbelow
              fs_only_dirs 7 ["clean"] listed_backwards_perm) as [_ Hempty].
  split.
  - split; [reflexivity|]. apply Hmissing. reflexivity.
  - split; [reflexivity|]. apply Hempty; [reflexivity|].
    intros p _. apply only_dirs_no_file.
    apply (bool_decide_unpack _). vm_compute. reflexivity.
Defined.

(** C7, as it is worded, fails: on a root that does not exist
    [get_image_paths] returns the empty sequence instead of failing. *)
Lemma get_image_paths_missing_root_no_error :
  ¬ missing_root_fails as_listed lcg_seed lcg_randbelow fs_only_dirs 7 ["missing"].
Proof.
  intros H. specialize (H eq_refl). vm_compute in H. discriminate.
Qed.

(** ** [copytree] *)

Lemma elem_of_copies fs src dst q n :
  (q, n) ∈ map (λ pn : path * node, (rebase src dst pn.1, pn.2))
             (filter (λ pn : path * node, src `prefix_of` pn.1) (map_to_list fs))
  ↔ mirror fs src dst q = Some n.
Proof.
  unfold mirror. rewrite list_elem_of_fmap. split.
  - intros [[p n'] [Heq Hin]]. simpl in Heq. injection Heq as -> ->.
    apply list_elem_of_filter in Hin as [[k Hk] Hin%elem_of_map_to_list].
    simpl in Hk. subst p. unfold rebase. rewrite drop_app_length.
    rewrite decide_True by (by apply prefix_app_r).
    by rewrite drop_app_length.
  - destruct (decide (dst `prefix_of` q)) as [[k ->]|]; [|done].
    rewrite drop_app_length. intros Hk.
    exists (src ++ k, n). split.
    + simpl. unfold rebase. by rewrite drop_app_length.
    + apply list_elem_of_filter. split; [by apply prefix_app_r|].
      by apply elem_of_map_to_list.
Qed.

Lemma copies_lookup fs src dst q :
  (list_to_map (map (λ pn : path * node, (rebase src dst pn.1, pn.2))
     (filter (λ pn : path * node, src `prefix_of` pn.1) (map_to_list fs)))
     : gmap path node) !! q
  = mirror fs src dst q.
Proof.
  destruct (mirror fs src dst q) as [n|] eqn:E.
  - apply elem_of_list_to_map_1'; [|by apply elem_of_copies].
    intros n' Hn'%elem_of_copies. congruence.
  - apply eq_None_not_Some. intros [n Hn].
    apply elem_of_list_to_map_2, elem_of_copies in Hn. congruence.
Qed.

Lemma no_clash_iff fs src dst :
  existsb (kind_clash fs)
    (map (λ pn : path * node, (rebase src dst pn.1, pn.2))
       (filter (λ pn : path * node, src `prefix_of` pn.1) (map_to_list fs)))
  = false
  ↔ ∀ q n, mirror fs src dst q = Some n → kind_clash fs (q, n) = false.
Proof.
  split.
  - intros Hno q n Hm%elem_of_copies.
    destruct (kind_clash fs (q, n)) eqn:E; [|done].
    assert (existsb (kind_clash fs)
      (map (λ pn : path * node, (rebase src dst pn.1, pn.2))
        (filter (λ pn : path * node, src `prefix_of` pn.1) (map_to_list fs)))
      = true) as Hyes; [|congruence].
    apply existsb_exists. exists (q, n). split; [|done].
    by apply list_elem_of_In.
  - intros Hall. apply not_true_is_false. intros ((q & n) & Hin & Hc)%existsb_exists.
    apply list_elem_of_In, elem_of_copies in Hin.
    rewrite (Hall q n Hin) in Hc. done.
Qed.

(** When [copytree] succeeds and what it leaves. *)
Lemma copytree_Ok fs src dst fs' :
  copytree fs src dst = Ok fs' ↔
  is_dir fs src = true ∧
  (∀ q n, mirror fs src dst q = Some n → kind_clash fs (q, n) = false) ∧
  fs' = list_to_map (map (λ pn : path * node, (rebase src dst pn.1, pn.2))
          (filter (λ pn : path * node, src `prefix_of` pn.1) (map_to_list fs)))
        ∪ fs.
Proof.
  unfold copytree. destruct (is_dir fs src); simpl.
  - rewrite <-no_clash_iff. destruct (existsb _ _).
    + split; [done|]. by intros (_ & ? & _).
    + split; [by intros [= <-]|]. by intros (_ & _ & ->).
  - split; [done|]. by intros (? & _).
Qed.

Lemma copytree_lookup fs src dst fs' q :
  copytree fs src dst = Ok fs' →
  fs' !! q = overlay (mirror fs src dst q) (fs !! q).
Proof.
  intros (_ & _ & ->)%copytree_Ok.
  rewrite lookup_union, copies_lookup. unfold overlay.
  destruct (mirror fs src dst q), (fs !! q); done.
Qed.

Lemma mirror_root fs src dst : mirror fs src dst dst = fs !! src.
Proof.
  unfold mirror. rewrite decide_True by done.
  by rewrite drop_all, app_nil_r.
Qed.

(** Two directories neither of which lies in the other share no path. *)
Lemma apart_no_common (d1 d2 p : path) :
  ¬ d1 `prefix_of` d2 → ¬ d2 `prefix_of` d1 →
  d1 `prefix_of` p → ¬ d2 `prefix_of` p.
Proof.
  intros H12 H21 H1 H2.
  destruct (prefix_weak_total d1 d2 p H1 H2); done.
Qed.

(** ** The Image Sanitizer *)

Lemma filter_ext_elem {A} (P Q : A → Prop) `{∀ x, Decision (P x)}
    `{∀ x, Decision (Q x)} (l : list A) :
  (∀ x, x ∈ l → (P x ↔ Q x)) → filter P l = filter Q l.
Proof.
  induction l as [|a l IH]; intros Hext; [done|].
  rewrite !filter_cons.
  rewrite IH by (intros x Hx; apply Hext; by right).
  destruct (decide (P a)) as [HP|HP], (decide (Q a)) as [HQ|HQ]; try done;
    exfalso; apply (Hext a) in HP || apply (Hext a) in HQ; try done; by left.
Qed.

Lemma NoDup_files_below fs root : NoDup (files_below fs root).
Proof.
  unfold files_below. apply NoDup_filter.
  rewrite sorted_perm. by apply NoDup_glob_rec.
Qed.

Section SanitizerProps.
Variable decode : list Byte.byte → option image.

Lemma undecodable_is_file fs q :
  undecodable decode fs q = true → is_file fs q = true.
Proof. unfold undecodable, is_file. by destruct (fs !! q) as [[]|]. Qed.

Lemma undecodable_imread fs q :
  is_file fs q = true →
  (cv2_imread decode fs q = None ↔ undecodable decode fs q = true).
Proof.
  unfold undecodable, is_file, cv2_imread.
  destruct (fs !! q) as [[c|]|]; try done. by destruct (decode c).
Qed.

Lemma undecodable_delete_ne fs p q :
  p ≠ q → undecodable decode (delete p fs) q = undecodable decode fs q.
Proof. intros Hne. unfold undecodable. by rewrite lookup_delete_ne. Qed.

(** The checking loop un-links exactly the listed files that do not
    decode, and nothing else changes. *)
Lemma check_images_spec l fs log :
  NoDup l → Forall (λ p, is_file fs p = true) l →
  ∃ fs',
    check_images decode l fs log
      = Ok (fs', log ++ filter (λ p, undecodable decode fs p = true) l) ∧
    (∀ q, q ∈ l → undecodable decode fs q = true → fs' !! q = None) ∧
    (∀ q, ¬ (q ∈ l ∧ undecodable decode fs q = true) → fs' !! q = fs !! q).
Proof.
  revert fs log. induction l as [|p l IH]; intros fs log Hnd Hfiles.
  { exists fs. simpl. rewrite app_nil_r. split; [done|].
    split; [by intros q ?%elem_of_nil|done]. }
  apply NoDup_cons in Hnd as [Hp Hnd].
  apply Forall_cons in Hfiles as [Hfile Hfiles].
  cbn [check_images]. rewrite filter_cons.
  destruct (cv2_imread decode fs p) as [img|] eqn:Hread.
  - assert (Hdec : undecodable decode fs p ≠ true).
    { intros Hu. apply (undecodable_imread fs p Hfile) in Hu. congruence. }
    rewrite decide_False by done.
    destruct (IH fs log Hnd Hfiles) as (fs' & Hrun & Hgone & Hkept).
    exists fs'. split; [done|]. split.
    + intros q [->|Hq]%elem_of_cons Hu; [done|auto].
    + intros q Hq. apply Hkept. intros [? ?]. apply Hq.
      split; [by right|done].
  - assert (Hdec : undecodable decode fs p = true).
    { by apply (undecodable_imread fs p Hfile). }
    rewrite decide_True by done.
    unfold unlink. rewrite Hfile. cbn [mbind result_bind].
    destruct (IH (delete p fs) (log ++ [p]) Hnd) as (fs' & Hrun & Hgone & Hkept).
    { apply Forall_forall. intros q Hq. rewrite Forall_forall in Hfiles.
      unfold is_file. rewrite lookup_delete_ne by (intros ->; done).
      by apply Hfiles. }
    exists fs'. split; [|split].
    + rewrite Hrun. rewrite <-app_assoc. simpl.
      rewrite (filter_ext_elem
                 (λ q, undecodable decode (delete p fs) q = true)
                 (λ q, undecodable decode fs q = true) l); [done|].
      intros q Hq.
      rewrite undecodable_delete_ne by (intros ->; done). done.
    + intros q [->|Hq]%elem_of_cons Hu.
      * rewrite Hkept by (by intros [? _]). apply lookup_delete_eq.
      * apply Hgone; [done|].
        rewrite undecodable_delete_ne by (intros ->; done). done.
    + intros q Hq. destruct (decide (q = p)) as [->|Hne].
      { destruct Hq. split; [by left|done]. }
      rewrite Hkept, lookup_delete_ne; [done|done|].
      intros [Hin Hu]. apply Hq. split; [by right|].
      by rewrite undecodable_delete_ne in Hu.
Qed.

Variable casefold : string → string.
Variable scandir_order : list path → list path.
Hypothesis scandir_order_perm : ∀ l, scandir_order l ≡ₚ l.

(** What [remove_non_images] does, given what [copytree] left ([m]):
    it succeeds, un-links the files below [clean_dir] that do not
    decode, and leaves every other path as [copytree] left it. *)
Lemma remove_non_images_Ok fs raw_dir clean_dir m :
  copytree fs raw_dir clean_dir = Ok m →
  ∃ out,
    remove_non_images casefold scandir_order decode fs raw_dir clean_dir = Ok out ∧
    (∀ q, strictly_under clean_dir q → undecodable decode m q = true →
          fs_after out !! q = None) ∧
    (∀ q, ¬ (strictly_under clean_dir q ∧ undecodable decode m q = true) →
          fs_after out !! q = m !! q) ∧
    (∀ q, q ∈ unlinked out ↔
          strictly_under clean_dir q ∧ undecodable decode m q = true).
Proof.
  intros Hcopy. unfold remove_non_images. rewrite Hcopy. cbn [mbind result_bind].
  assert (Hclean : is_dir m clean_dir = true).
  { unfold is_dir. rewrite (copytree_lookup _ _ _ _ _ Hcopy), mirror_root.
    apply copytree_Ok in Hcopy as (Hsrc & _). unfold is_dir in Hsrc.
    by destruct (fs !! raw_dir) as [[]|]. }
  destruct (checked_paths casefold scandir_order m clean_dir scandir_order_perm)
    as [Hnd Hin].
  set (image_paths := filter (λ p, is_file m p)
                        (sorted_on casefold (glob_rec scandir_order m clean_dir)))
    in *.
  destruct (check_images_spec image_paths m [] Hnd)
    as (fs' & Hrun & Hgone & Hkept).
  { apply Forall_forall. by intros q (_ & _ & ?)%Hin. }
  rewrite Hrun. cbn [mbind result_bind app]. eexists. split; [done|].
  cbn [fs_after unlinked].
  assert (Hmem : ∀ q, q ∈ image_paths ∧ undecodable decode m q = true
                      ↔ strictly_under clean_dir q ∧ undecodable decode m q = true).
  { intros q. rewrite Hin.
    split; [by intros [(_ & ? & _) ?]|].
    intros [? Hu]. pose proof (undecodable_is_file _ _ Hu). done. }
  split; [|split].
  - intros q Hq Hu. apply Hgone; [|done]. by apply Hmem.
  - intros q Hq. apply Hkept. by rewrite Hmem.
  - intros q. rewrite list_elem_of_filter, <-Hmem. tauto.
Qed.

Lemma remove_non_images_inv fs raw_dir clean_dir out :
  remove_non_images casefold scandir_order decode fs raw_dir clean_dir = Ok out →
  ∃ m, copytree fs raw_dir clean_dir = Ok m.
Proof.
  unfold remove_non_images.
  destruct (copytree fs raw_dir clean_dir) as [m|e]; [by eexists|done].
Qed.
End SanitizerProps.

Lemma undecodable_lookup_eq (decode : list Byte.byte → option image)
    (m m' : gmap path node) (q : path) :
  m !! q = m' !! q → undecodable decode m q = undecodable decode m' q.
Proof. unfold undecodable. by intros ->. Qed.

Lemma kind_clash_same (fs : gmap path node) q n :
  fs !! q = None ∨ fs !! q = Some n → kind_clash fs (q, n) = false.
Proof. unfold kind_clash. simpl. intros [->| ->]; by destruct n. Qed.

(** With [raw_dir] and [clean_dir] apart, nothing at or below [raw_dir]
    changes. *)
Lemma remove_non_images_frame (casefold : string → string)
    (so : list path → list path)
    (decode : list Byte.byte → option image)
    (fs : gmap path node) (raw_dir clean_dir : path) (out : sanitized) :
  (∀ l, so l ≡ₚ l) →
  ¬ raw_dir `prefix_of` clean_dir → ¬ clean_dir `prefix_of` raw_dir →
  remove_non_images casefold so decode fs raw_dir clean_dir = Ok out →
  raw_unchanged fs (fs_after out) raw_dir.
Proof.
  intros Hso Hrc Hcr Hrun p Hp.
  destruct (remove_non_images_inv _ _ _ _ _ _ _ Hrun) as [m Hcopy].
  destruct (remove_non_images_Ok decode casefold so Hso _ _ _ _ Hcopy)
    as (out' & Hrun' & _ & Hkept & _).
  assert (out' = out) as -> by congruence.
  pose proof (apart_no_common _ _ _ Hrc Hcr Hp) as Hnp.
  rewrite Hkept by (by intros [[? _] _]).
  rewrite (copytree_lookup _ _ _ _ _ Hcopy). unfold mirror.
  by rewrite decide_False.
Qed.

(** C5, as the code has it: when neither directory lies inside the
    other, a pass of [remove_non_images] that completes leaves every
    path at or below the raw directory as it was; all it un-links lies
    below the clean directory. *)
Theorem remove_non_images_keeps_raw (casefold : string → string)
    (so : list path → list path)
    (decode : list Byte.byte → option image)
    (fs : gmap path node) (raw_dir clean_dir : path) (out : sanitized) :
  (∀ l, so l ≡ₚ l) →
  ¬ raw_dir `prefix_of` clean_dir → ¬ clean_dir `prefix_of` raw_dir →
  remove_non_images casefold so decode fs raw_dir clean_dir = Ok out →
  raw_unchanged fs (fs_after out) raw_dir ∧
  Forall (λ q, strictly_under clean_dir q ∧ ¬ raw_dir `prefix_of` q)
         (unlinked out).
Proof.
  intros Hso Hrc Hcr Hrun. split; [by eapply remove_non_images_frame|].
  destruct (remove_non_images_inv _ _ _ _ _ _ _ Hrun) as [m Hcopy].
  destruct (remove_non_images_Ok decode casefold so Hso _ _ _ _ Hcopy)
    as (out' & Hrun' & _ & _ & Hunl).
  assert (out' = out) as -> by congruence.
  apply Forall_forall. intros q [Hq _]%Hunl. split; [done|].
  intros Hr. destruct Hq as [Hq _].
  by apply (apart_no_common _ _ _ Hrc Hcr Hr).
Qed.

(** Directories neither of which lies strictly inside the other are
    one and the same, or apart. *)
Lemma same_or_apart (d1 d2 : path) :
  ¬ strictly_under d1 d2 → ¬ strictly_under d2 d1 →
  d1 = d2 ∨ (¬ d1 `prefix_of` d2 ∧ ¬ d2 `prefix_of` d1).
Proof.
  intros H12 H21. destruct (decide (d1 = d2)) as [?|Hne]; [by left|right].
  split; intros Hp; [apply H12|apply H21]; split; congruence.
Qed.

(** C6, as the code has it: when the two directories are one and the
    same or lie apart (neither strictly inside the other), a second pass
    after a pass that completed completes too and leaves the file system
    exactly as the first pass left it, every file below the clean
    directory decoding; but the second pass is no idle one: it copies in
    again, and un-links again, exactly the files of the raw directory
    that do not decode (the raw directory being, when the two lie apart,
    as it was before the first pass). *)
Theorem remove_non_images_twice (casefold : string → string)
    (so1 so2 : list path → list path)
    (decode : list Byte.byte → option image)
    (fs : gmap path node) (raw_dir clean_dir : path) (out : sanitized) :
  (∀ l, so1 l ≡ₚ l) → (∀ l, so2 l ≡ₚ l) →
  ¬ strictly_under raw_dir clean_dir → ¬ strictly_under clean_dir raw_dir →
  remove_non_images casefold so1 decode fs raw_dir clean_dir = Ok out →
  (∀ q c, strictly_under clean_dir q → fs_after out !! q = Some (File c) →
          is_Some (decode c)) ∧
  (raw_dir ≠ clean_dir → raw_unchanged fs (fs_after out) raw_dir) ∧
  ∃ out',
    remove_non_images casefold so2 decode (fs_after out) raw_dir clean_dir
      = Ok out' ∧
    fs_after out' = fs_after out ∧
    (∀ q, q ∈ unlinked out' ↔
          ∃ c, clean_dir `prefix_of` q ∧
               fs_after out !! (raw_dir ++ drop (length clean_dir) q)
                 = Some (File c) ∧
               decode c = None).
Proof.
  intros Hso1 Hso2 Hrc Hcr Hrun.
  pose proof (same_or_apart _ _ Hrc Hcr) as Hlie.
  destruct (remove_non_images_inv _ _ _ _ _ _ _ Hrun) as [m1 Hcopy1].
  destruct (remove_non_images_Ok decode casefold so1 Hso1 _ _ _ _ Hcopy1)
    as (out1 & Hrun1 & Hgone1 & Hkept1 & _).
  assert (out1 = out) as -> by congruence. clear Hrun1.
  set (fs1 := fs_after out) in *.
  pose proof (λ q, copytree_lookup _ _ _ _ q Hcopy1) as Hm1.
  pose proof (proj1 (copytree_Ok _ _ _ _) Hcopy1) as (Hsrc & _ & _).
  (* a file below [clean_dir] that the first pass kept decodes *)
  assert (Hclean1 : ∀ q, strictly_under clean_dir q →
                         undecodable decode fs1 q = false).
  { intros q Hq.
    destruct (undecodable decode m1 q) eqn:Hu.
    - unfold undecodable. by rewrite (Hgone1 q Hq Hu).
    - rewrite <-Hu. apply undecodable_lookup_eq. apply Hkept1.
      intros [_ ?]. congruence. }
  assert (Hframe : raw_dir ≠ clean_dir → raw_unchanged fs fs1 raw_dir).
  { intros Hne. destruct Hlie as [?|[Hrc' Hcr']]; [done|].
    exact (remove_non_images_frame casefold so1 decode fs raw_dir clean_dir
             out Hso1 Hrc' Hcr' Hrun). }
  (* the raw directory still stands *)
  assert (Hsrc1 : is_dir fs1 raw_dir = true).
  { destruct (decide (raw_dir = clean_dir)) as [Heq|Hne].
    - unfold is_dir. rewrite Hkept1 by (intros [[_ ?] _]; congruence).
      rewrite Hm1, <-Heq, mirror_root. unfold is_dir in Hsrc.
      by destruct (fs !! raw_dir) as [[]|].
    - unfold is_dir. rewrite (Hframe Hne raw_dir) by done. exact Hsrc. }
  (* what the second copy writes is there already, or was un-linked *)
  assert (Hagain : ∀ q n, mirror fs1 raw_dir clean_dir q = Some n →
            fs1 !! q = Some n ∨
            (fs1 !! q = None ∧ strictly_under clean_dir q ∧
             ∃ c, n = File c ∧ decode c = None)).
  { intros q n Hq. destruct (decide (raw_dir = clean_dir)) as [Heq|Hne].
    - left. unfold mirror in Hq. destruct (decide _) as [[k ->]|]; [|done].
      rewrite drop_app_length in Hq. by rewrite <-Heq.
    - assert (Hq0 : mirror fs raw_dir clean_dir q = Some n).
      { rewrite <-Hq. unfold mirror. destruct (decide _); [|done].
        symmetry. apply (Hframe Hne). by apply prefix_app_r. }
      assert (Hm1q : m1 !! q = Some n) by (by rewrite Hm1, Hq0).
      destruct (decide (strictly_under clean_dir q
                        ∧ undecodable decode m1 q = true)) as [[Hsu Hu]|Hn].
      + right. split; [by apply Hgone1|]. split; [done|].
        unfold undecodable in Hu. rewrite Hm1q in Hu.
        destruct n as [c|]; [|done]. exists c. split; [done|].
        by destruct (decode c).
      + left. by rewrite Hkept1. }
  assert (Hcopy2 : ∃ m2, copytree fs1 raw_dir clean_dir = Ok m2).
  { eexists. apply copytree_Ok. split; [exact Hsrc1|split; [|done]].
    intros q n Hq. apply kind_clash_same.
    destruct (Hagain q n Hq) as [?|[? _]]; [by right|by left]. }
  destruct Hcopy2 as [m2 Hcopy2].
  pose proof (λ q, copytree_lookup _ _ _ _ q Hcopy2) as Hm2.
  destruct (remove_non_images_Ok decode casefold so2 Hso2 _ _ _ _ Hcopy2)
    as (out2 & Hrun2 & Hgone2 & Hkept2 & Hunl2).
  split; [|split; [exact Hframe|exists out2; split; [done|split]]].
  - intros q c Hq Hfile. specialize (Hclean1 q Hq).
    unfold undecodable in Hclean1. rewrite Hfile in Hclean1.
    by destruct (decode c).
  - apply map_eq. intros q. fold fs1.
    destruct (mirror fs1 raw_dir clean_dir q) as [n|] eqn:Hq.
    + assert (Hm2q : m2 !! q = Some n) by (by rewrite Hm2, Hq).
      destruct (Hagain q n Hq) as [Hthere|(Hgone & Hsu & c & -> & Hdec)].
      * rewrite Hthere, <-Hm2q. apply Hkept2. intros [Hsu Hu].
        rewrite (undecodable_lookup_eq decode m2 fs1 q) in Hu
          by (by rewrite Hm2q, Hthere).
        rewrite (Hclean1 q Hsu) in Hu. done.
      * rewrite Hgone. apply Hgone2; [done|].
        unfold undecodable. by rewrite Hm2q, Hdec.
    + assert (Hsame : m2 !! q = fs1 !! q) by (by rewrite Hm2, Hq).
      rewrite <-Hsame. apply Hkept2. intros [Hsu Hu].
      rewrite (undecodable_lookup_eq decode _ _ _ Hsame) in Hu.
      rewrite (Hclean1 q Hsu) in Hu. done.
  - intros q. rewrite Hunl2. split.
    + intros [Hsu Hu].
      destruct (mirror fs1 raw_dir clean_dir q) as [n|] eqn:Hq.
      * unfold undecodable in Hu. rewrite Hm2, Hq in Hu. simpl in Hu.
        destruct n as [c|]; [|done]. exists c. unfold mirror in Hq.
        destruct (decide _); [|done].
        split; [done|split; [done|]]. by destruct (decode c).
      * assert (Hsame : m2 !! q = fs1 !! q) by (by rewrite Hm2, Hq).
        rewrite (undecodable_lookup_eq decode _ _ _ Hsame) in Hu.
        rewrite (Hclean1 q Hsu) in Hu. done.
    + intros (c & Hpre & Hraw & Hdec).
      assert (Hq : mirror fs1 raw_dir clean_dir q = Some (File c)).
      { unfold mirror. by rewrite decide_True. }
      split.
      * split; [done|]. intros ->. rewrite mirror_root in Hq.
        unfold is_dir in Hsrc1. by rewrite Hq in Hsrc1.
      * unfold undecodable. rewrite Hm2, Hq. simpl. by rewrite Hdec.
Qed.

Lemma raw_clean_apart :
  ¬ (["raw"] : path) `prefix_of` ["clean"] ∧ ¬ (["clean"] : path) `prefix_of` ["raw"].
Proof. split; intros [k Hk]; discriminate. Qed.

Lemma remove_non_images_keeps_raw_witness :
  ∃ out,
    remove_non_images posix_casefold as_listed magic_decode fs_apart ["raw"] ["clean"] = Ok out ∧
    raw_unchanged fs_apart (fs_after out) ["raw"] ∧
    Forall (λ q, strictly_under ["clean"] q ∧ ¬ ["raw"] `prefix_of` q)
           (unlinked out).
Proof.
  destruct (remove_non_images posix_casefold as_listed magic_decode fs_apart ["raw"] ["clean"])
    as [out|e] eqn:E; [|vm_compute in E; discriminate].
  exists out. split; [reflexivity|].
  exact (remove_non_images_keeps_raw posix_casefold as_listed magic_decode fs_apart ["raw"]
           ["clean"] out as_listed_perm (proj1 raw_clean_apart)
           (proj2 raw_clean_apart) E).
Defined.

(** C5, as it is worded, fails: with the raw directory inside the clean
    one, the pass un-links a file of the raw directory. *)
Lemma remove_non_images_nested_deletes_raw :
  ∃ out,
    remove_non_images posix_casefold as_listed magic_decode fs_nested ["data"; "raw"] ["data"]
      = Ok out ∧
    ¬ raw_unchanged fs_nested (fs_after out) ["data"; "raw"].
Proof.
  destruct (remove_non_images posix_casefold as_listed magic_decode fs_nested ["data"; "raw"]
              ["data"]) as [out|e] eqn:E; [|vm_compute in E; discriminate].
  exists out. split; [done|]. intros H.
  specialize (H ["data"; "raw"; "notes.txt"]
                (prefix_app_r ["data"; "raw"] ["data"; "raw"] ["notes.txt"]
                   (reflexivity _))).
  vm_compute in E. injection E as <-. vm_compute in H. discriminate.
Qed.

Lemma remove_non_images_twice_witness :
  ∃ out,
    remove_non_images posix_casefold as_listed magic_decode fs_apart ["raw"]
      ["clean"] = Ok out ∧
    (∀ q c, strictly_under ["clean"] q → fs_after out !! q = Some (File c) →
            is_Some (magic_decode c)) ∧
    ((["raw"] : path) ≠ ["clean"] → raw_unchanged fs_apart (fs_after out) ["raw"]) ∧
    ∃ out',
      remove_non_images posix_casefold listed_backwards magic_decode
        (fs_after out) ["raw"] ["clean"] = Ok out' ∧
      fs_after out' = fs_after out ∧
      (∀ q, q ∈ unlinked out' ↔
            ∃ c, ["clean"] `prefix_of` q ∧
                 fs_after out !! (["raw"] ++ drop (length ["clean"]) q)
                   = Some (File c) ∧
                 magic_decode c = None).
Proof.
  destruct (remove_non_images posix_casefold as_listed magic_decode fs_apart
              ["raw"] ["clean"]) as [out|e] eqn:E;
    [|vm_compute in E; discriminate].
  exists out. split; [reflexivity|].
  exact (remove_non_images_twice posix_casefold as_listed listed_backwards
           magic_decode fs_apart ["raw"] ["clean"] out as_listed_perm
           listed_backwards_perm
           (λ H, proj1 raw_clean_apart (proj1 H))
           (λ H, proj2 raw_clean_apart (proj1 H)) E).
Defined.

(** C6, as it is worded, fails, and in each way the directories may
    lie.  With the two apart, the second pass over the tree the first
    pass cleaned un-links a file again.  With the clean directory inside
    the raw one, or the raw directory inside the clean one, the second
    pass leaves a file in the clean tree that was not there after the
    first. *)
Lemma remove_non_images_rerun_differs :
  (∃ out out',
     remove_non_images posix_casefold as_listed magic_decode fs_apart ["raw"]
       ["clean"] = Ok out ∧
     remove_non_images posix_casefold as_listed magic_decode (fs_after out)
       ["raw"] ["clean"] = Ok out' ∧
     unlinked out' = [["clean"; "apple"; "notes.txt"]]) ∧
  (∃ out out',
     remove_non_images posix_casefold as_listed magic_decode fs_clean_in_raw
       ["raw"] ["raw"; "clean"] = Ok out ∧
     remove_non_images posix_casefold as_listed magic_decode (fs_after out)
       ["raw"] ["raw"; "clean"] = Ok out' ∧
     is_file (fs_after out) ["raw"; "clean"; "clean"; "a.jpg"] = false ∧
     is_file (fs_after out') ["raw"; "clean"; "clean"; "a.jpg"] = true) ∧
  (∃ out out',
     remove_non_images posix_casefold as_listed magic_decode fs_raw_in_clean
       ["data"; "raw"] ["data"] = Ok out ∧
     remove_non_images posix_casefold as_listed magic_decode (fs_after out)
       ["data"; "raw"] ["data"] = Ok out' ∧
     is_file (fs_after out) ["data"; "a.jpg"] = false ∧
     is_file (fs_after out') ["data"; "a.jpg"] = true).
Proof.
  split; [|split].
  - destruct (remove_non_images posix_casefold as_listed magic_decode fs_apart
                ["raw"] ["clean"]) as [out|e] eqn:E;
      [|vm_compute in E; discriminate].
    destruct (remove_non_images posix_casefold as_listed magic_decode
                (fs_after out) ["raw"] ["clean"]) as [out'|e] eqn:E';
      [|vm_compute in E; injection E as <-; vm_compute in E'; discriminate].
    exists out, out'. split; [done|split; [done|]].
    vm_compute in E. injection E as <-.
    vm_compute in E'. injection E' as <-. reflexivity.
  - destruct (remove_non_images posix_casefold as_listed magic_decode
                fs_clean_in_raw ["raw"] ["raw"; "clean"]) as [out|e] eqn:E;
      [|vm_compute in E; discriminate].
    destruct (remove_non_images posix_casefold as_listed magic_decode
                (fs_after out) ["raw"] ["raw"; "clean"]) as [out'|e] eqn:E';
      [|vm_compute in E; injection E as <-; vm_compute in E'; discriminate].
    exists out, out'. split; [done|split; [done|]].
    vm_compute in E. injection E as <-.
    vm_compute in E'. injection E' as <-. split; reflexivity.
  - destruct (remove_non_images posix_casefold as_listed magic_decode
                fs_raw_in_clean ["data"; "raw"] ["data"]) as [out|e] eqn:E;
      [|vm_compute in E; discriminate].
    destruct (remove_non_images posix_casefold as_listed magic_decode
                (fs_after out) ["data"; "raw"] ["data"]) as [out'|e] eqn:E';
      [|vm_compute in E; injection E as <-; vm_compute in E'; discriminate].
    exists out, out'. split; [done|split; [done|]].
    vm_compute in E. injection E as <-.
    vm_compute in E'. injection E' as <-. split; reflexivity.
Qed.

(** ** The Dataset Builder's split *)

Lemma safe_indexing_total {A} (a : list A) (idx : list nat) :
  Forall (λ i, (i < length a)%nat) idx →
  ∃ l, safe_indexing a idx = Ok l ∧ Forall2 (λ i x, a !! i = Some x) idx l.
Proof.
  induction 1 as [|i idx Hi _ (l & Hl & Hall)].
  - exists []. split; [done|constructor].
  - destruct (lookup_lt_is_Some_2 a i Hi) as [x Hx].
    exists (x :: l). unfold safe_indexing in *. simpl. rewrite Hx. simpl.
    rewrite Hl. split; [done|]. by constructor.
Qed.

(** [ceil(0.25 * n)] is [n / 4] rounded up. *)
Lemma n_test_quarter (n : nat) :
  (n ≤ 4 * Z.to_nat (Qceiling (quarter * Qc_of_Z (Z.of_nat n))%Qc)
     < n + 4)%nat.
Proof.
  assert (Hx : (this (quarter * Qc_of_Z (Z.of_nat n))%Qc == Z.of_nat n # 4)%Q).
  { simpl. rewrite Qred_correct. unfold Qeq. simpl. lia. }
  rewrite Hx.
  pose proof (Qle_ceiling (Z.of_nat n # 4)) as Hle.
  pose proof (Qceiling_lt (Z.of_nat n # 4)) as Hlt.
  unfold Qle in Hle. unfold Qlt in Hlt. simpl in Hle, Hlt. lia.
Qed.

Section SplitProps.
Variable permutation : Z → nat → list nat.
(** The indices drawn are a shuffle of [0 .. n-1]. *)
Hypothesis permutation_perm : ∀ s n, permutation s n ≡ₚ seq 0 n.

Lemma permutation_bound s n : Forall (λ i, (i < n)%nat) (permutation s n).
Proof.
  apply Forall_forall. intros i Hi. rewrite permutation_perm in Hi.
  apply elem_of_seq in Hi. lia.
Qed.

Lemma train_test_split_quarter {A B} (x : list A) (y : list B) :
  length y = length x →
  let n := length x in
  let n_test := Z.to_nat (Qceiling (quarter * Qc_of_Z (Z.of_nat n))%Qc) in
  let ind_test := take n_test (permutation 42 n) in
  let ind_train := take (n - n_test) (drop n_test (permutation 42 n)) in
  match train_test_split permutation x y quarter 42 with
  | Ok (x_train, x_test, y_train, y_test) =>
      Forall2 (λ i a, x !! i = Some a) ind_train x_train ∧
      Forall2 (λ i a, x !! i = Some a) ind_test x_test ∧
      Forall2 (λ i b, y !! i = Some b) ind_train y_train ∧
      Forall2 (λ i b, y !! i = Some b) ind_test y_test ∧
      length ind_train = (n - n_test)%nat ∧ length ind_test = n_test ∧
      (n_test ≤ n)%nat
  | Err _ => (n ≤ 1)%nat
  end.
Proof.
  intros Hlen n n_test ind_test ind_train. unfold train_test_split.
  rewrite Hlen, Nat.eqb_refl. cbn [negb].
  fold n. fold n_test. fold ind_test. fold ind_train.
  pose proof (n_test_quarter n) as Hq. fold n_test in Hq.
  destruct (n - n_test =? 0)%nat eqn:Hz.
  { apply Nat.eqb_eq in Hz. lia. }
  apply Nat.eqb_neq in Hz.
  assert (Hpl : length (permutation 42 n) = n).
  { by rewrite permutation_perm, length_seq. }
  assert (Htest : Forall (λ i, (i < n)%nat) ind_test).
  { apply Forall_take, permutation_bound. }
  assert (Htrain : Forall (λ i, (i < n)%nat) ind_train).
  { apply Forall_take, Forall_drop, permutation_bound. }
  destruct (safe_indexing_total x ind_train Htrain) as (xt & -> & Hxt).
  destruct (safe_indexing_total x ind_test Htest) as (xv & -> & Hxv).
  destruct (safe_indexing_total y ind_train) as (yt & -> & Hyt);
    [by rewrite Hlen|].
  destruct (safe_indexing_total y ind_test) as (yv & -> & Hyv);
    [by rewrite Hlen|].
  simpl. repeat split; try done.
  - unfold ind_train. rewrite length_take, length_drop, Hpl. lia.
  - unfold ind_test. rewrite length_take, Hpl. lia.
  - lia.
Qed.

(** C9: for a dataset with as many labels as samples, the split of
    [get_model_input] has [len(x_train) + len(x_val) = n] and
    [len(x_val) = ceil(n / 4)] (so [len(x_val) / n] is 0.25 within
    rounding), labels split alongside; the validation part is the data
    at the first [ceil(n / 4)] indices drawn with seed 42 and the
    training part the data at the remaining ones, whatever else
    happened before.  Only for [n ≤ 1], where the training part would be
    empty, is there no split. *)
Theorem get_model_input_split (data : list tensor) (labels : list string) :
  length labels = length data →
  let n := length data in
  let n_val := Z.to_nat (Qceiling (quarter * Qc_of_Z (Z.of_nat n))%Qc) in
  match get_model_input permutation data labels with
  | Ok mi =>
      (length (x_train mi) + length (x_val mi) = n)%nat ∧
      (n ≤ 4 * length (x_val mi) < n + 4)%nat ∧
      length (y_train mi) = length (x_train mi) ∧
      length (y_val mi) = length (x_val mi) ∧
      Forall2 (λ i a, data !! i = Some a)
              (take n_val (permutation 42 n)) (x_val mi) ∧
      Forall2 (λ i a, data !! i = Some a)
              (take (n - n_val) (drop n_val (permutation 42 n))) (x_train mi)
  | Err _ => (n ≤ 1)%nat
  end.
Proof.
  intros Hlen n n_val. unfold get_model_input.
  assert (Hlen' : length (fit_transform labels) = length data).
  { unfold fit_transform. by rewrite length_map. }
  pose proof (train_test_split_quarter data (fit_transform labels) Hlen') as Hs.
  cbv zeta in Hs. fold n in Hs. fold n_val in Hs.
  destruct (train_test_split permutation data (fit_transform labels) quarter 42)
    as [[[[xt xv] yt] yv]|e]; [|done].
  destruct Hs as (Hxt & Hxv & Hyt & Hyv & Hlt & Hlv & Hle).
  cbn [mbind result_bind x_train x_val y_train y_val].
  unfold to_categorical. rewrite !length_map.
  apply Forall2_length in Hxt as Hxt', Hxv as Hxv', Hyt as Hyt', Hyv as Hyv'.
  pose proof (n_test_quarter n) as Hq. fold n_val in Hq.
  repeat split; try done; lia.
Qed.
End SplitProps.

Lemma reversed_indices_perm s n : reversed_indices s n ≡ₚ seq 0 n.
Proof. apply reverse_Permutation. Qed.

Lemma get_model_input_split_witness :
  length labels5 = length data5 ∧
  ∃ mi, get_model_input reversed_indices data5 labels5 = Ok mi ∧
        (length (x_train mi) + length (x_val mi) = 5)%nat ∧
        length (x_val mi) = 2%nat.
Proof.
  split; [reflexivity|].
  pose proof (get_model_input_split reversed_indices reversed_indices_perm
                data5 labels5 eq_refl) as H.
  cbv zeta in H.
  destruct (get_model_input reversed_indices data5 labels5) as [mi|e].
  - exists mi. split; [reflexivity|].
    destruct H as (Hsum & Hq & _). simpl in Hsum, Hq. lia.
  - simpl in H. lia.
Defined.

(** ** The Trainer *)

Lemma mkdir_from_ok (base rest : path) (fs : gmap path node) :
  (∀ q, q `prefix_of` base ++ rest → is_file fs q = false) →
  ∃ fs', mkdir_from base rest fs = Ok fs' ∧
         ∀ q : path, (length (base ++ rest) < length q)%nat → fs' !! q = fs !! q.
Proof.
  revert base fs. induction rest as [|name rest IH]; intros base fs Hfree.
  { exists fs. done. }
  cbn [mkdir_from]. rewrite Hfree by (apply prefix_app, prefix_cons, prefix_nil).
  destruct (IH (base ++ [name]) (<[base ++ [name]:=Dir]> fs))
    as (fs' & Hrun & Hkeep).
  { intros q Hq. destruct (decide (q = base ++ [name])) as [->|Hne].
    - unfold is_file. by rewrite lookup_insert_eq.
    - unfold is_file. rewrite lookup_insert_ne by done.
      apply Hfree. by rewrite <-app_assoc in Hq. }
  exists fs'. split; [done|]. intros q Hq.
  rewrite <-app_assoc in Hkeep. rewrite (Hkeep q Hq).
  apply lookup_insert_ne. intros <-. rewrite !length_app in Hq. simpl in Hq. lia.
Qed.

Section TrainerProps.
Variables (model batch logs flow_state : Type).
Variable flow : ImageDataGenerator → list tensor → list (list Z) → Z → flow_state.
Variable next_batch : flow_state → batch * flow_state.
Variable train_on_batch : model → batch → model * logs.
Variable evaluate : model → list tensor → list (list Z) → logs.
Variable serialize : model → list Byte.byte.
Variable here : path.

Lemma length_batches k gen : length (batches next_batch k gen) = k.
Proof.
  revert gen. induction k as [|k IH]; intros gen; [done|].
  cbn [batches]. destruct (next_batch gen) as [b gen']. simpl. by rewrite IH.
Qed.

Lemma batches_add a b gen :
  batches next_batch (a + b) gen
  = batches next_batch a gen ++ batches next_batch b (advance next_batch a gen).
Proof.
  revert gen. induction a as [|a IH]; intros gen; [done|].
  cbn [Nat.add batches advance]. destruct (next_batch gen) as [x gen'].
  simpl. by rewrite IH.
Qed.

Lemma length_train_on m bs : length (train_on train_on_batch m bs).2 = length bs.
Proof.
  revert m. induction bs as [|b bs IH]; intros m; [done|].
  cbn [train_on]. destruct (train_on_batch m b) as [m' l].
  specialize (IH m'). destruct (train_on train_on_batch m' bs) as [m'' ls].
  simpl in *. by rewrite IH.
Qed.

Lemma train_on_app m bs1 bs2 :
  train_on train_on_batch m (bs1 ++ bs2)
  = ((train_on train_on_batch (train_on train_on_batch m bs1).1 bs2).1,
     (train_on train_on_batch m bs1).2
       ++ (train_on train_on_batch (train_on train_on_batch m bs1).1 bs2).2).
Proof.
  revert m. induction bs1 as [|b bs1 IH]; intros m.
  { simpl. by destruct (train_on train_on_batch m bs2). }
  cbn [app train_on]. destruct (train_on_batch m b) as [m' l].
  rewrite IH. destruct (train_on train_on_batch m' bs1) as [m1 l1].
  simpl. by destruct (train_on train_on_batch m1 bs2).
Qed.

(** The inner loop trains on the next [steps] batches, one after the
    other. *)
Lemma run_steps_spec steps m gen :
  run_steps model batch logs flow_state next_batch train_on_batch steps m gen
  = ((train_on train_on_batch m (batches next_batch steps gen)).1,
     advance next_batch steps gen,
     (train_on train_on_batch m (batches next_batch steps gen)).2).
Proof.
  revert m gen. induction steps as [|k IH]; intros m gen; [done|].
  cbn [run_steps batches advance]. destruct (next_batch gen) as [b gen'].
  cbn [train_on snd]. destruct (train_on_batch m b) as [m' l].
  rewrite IH.
  by destruct (train_on train_on_batch m' (batches next_batch k gen')).
Qed.

(** The two loops together train on the first [epochs * steps] batches
    of the iterator, in order, [steps] of them in each epoch, and
    evaluate the validation data on the model each epoch ends with. *)
Lemma run_epochs_spec epochs steps m gen x_val y_val :
  steps ≠ 0%nat →
  ∃ history,
    run_epochs model batch logs flow_state next_batch train_on_batch evaluate
      epochs steps m gen x_val y_val
    = Ok ((train_on train_on_batch m
             (batches next_batch (epochs * steps) gen)).1, history) ∧
    length history = epochs ∧
    Forall (λ r, length (batch_logs logs r) = steps) history ∧
    concat (batch_logs logs <$> history)
    = (train_on train_on_batch m (batches next_batch (epochs * steps) gen)).2 ∧
    ∀ i r, history !! i = Some r →
      val_logs logs r
      = evaluate (train_on train_on_batch m
                    (take (S i * steps)
                       (batches next_batch (epochs * steps) gen))).1
          x_val y_val.
Proof.
  intros Hsteps. revert m gen.
  induction epochs as [|k IH]; intros m gen.
  { exists []. repeat split; done. }
  cbn [run_epochs]. destruct steps as [|s] eqn:Es; [done|]. rewrite <-Es in *.
  rewrite run_steps_spec.
  change (S k * steps)%nat with (steps + k * steps)%nat.
  rewrite batches_add.
  set (bs0 := batches next_batch steps gen).
  set (gen1 := advance next_batch steps gen).
  set (m1 := (train_on train_on_batch m bs0).1).
  destruct (IH m1 gen1) as (history & Hrun & Hlen & Hall & Hlogs & Hval).
  set (bs1 := batches next_batch (k * steps) gen1) in *.
  rewrite Hrun. cbn [mbind result_bind]. eexists. split.
  { rewrite train_on_app. cbn [fst]. done. }
  assert (Hbs0 : length bs0 = steps) by apply length_batches.
  split; [by simpl; rewrite Hlen|]. split; [|split].
  - constructor; [|done]. cbn [batch_logs].
    by rewrite length_train_on.
  - rewrite fmap_cons. cbn [concat batch_logs]. rewrite Hlogs.
    by rewrite train_on_app.
  - intros [|i] r Hr.
    + injection Hr as <-. cbn [val_logs].
      replace (1 * steps)%nat with (length bs0 + 0)%nat by lia.
      by rewrite take_app_add, take_0, app_nil_r.
    + cbn [lookup list_lookup] in Hr. simpl in Hr.
      rewrite (Hval i r Hr).
      replace (S (S i) * steps)%nat with (length bs0 + S i * steps)%nat by lia.
      rewrite take_app_add, train_on_app. done.
Qed.

(** An epoch without a step ends the training. *)
Lemma fit_generator_no_step m gen x_val y_val (steps_per_epoch epochs : Z) :
  steps_per_epoch ≤ 0 → 0 < epochs →
  fit_generator model batch logs flow_state next_batch train_on_batch evaluate
    m gen x_val y_val steps_per_epoch epochs = Err KerasError.
Proof.
  intros Hs He. unfold fit_generator.
  rewrite (Z2Nat.nonpos steps_per_epoch) by done.
  destruct (Z.to_nat epochs) eqn:E; [lia|done].
Qed.

(** [train_model] after [fit_generator]: an exception of the training
    is one of [train_model]; after a training that returned, the model
    directory is made and the model written, if nothing is in the
    way. *)
Lemma train_model_fit_Err (m : model) (gen : ImageDataGenerator)
    (x_train : list tensor) (y_train : list (list Z))
    (x_val : list tensor) (y_val : list (list Z)) (b e : option Z)
    (fs : gmap path node) err :
  default 32 b ≠ 0 →
  fit_generator model batch logs flow_state next_batch train_on_batch evaluate
    m (flow gen x_train y_train (default 32 b)) x_val y_val
    (Z.of_nat (length x_train) / default 32 b) (default 25 e) = Err err →
  train_model model batch logs flow_state flow next_batch train_on_batch
    evaluate serialize here m gen x_train y_train x_val y_val b e fs = Err err.
Proof.
  intros Hb Hfit. unfold train_model. rewrite decide_False by done.
  by rewrite Hfit.
Qed.

Lemma train_model_fit_Ok (m : model) (gen : ImageDataGenerator)
    (x_train : list tensor) (y_train : list (list Z))
    (x_val : list tensor) (y_val : list (list Z)) (b e : option Z)
    (fs : gmap path node) m' history :
  default 32 b ≠ 0 →
  fit_generator model batch logs flow_state next_batch train_on_batch evaluate
    m (flow gen x_train y_train (default 32 b)) x_val y_val
    (Z.of_nat (length x_train) / default 32 b) (default 25 e)
  = Ok (m', history) →
  (∀ q, q `prefix_of` here ++ ["generated_data"; "models"] → is_file fs q = false) →
  is_dir fs (here ++ ["generated_data"; "models"; "model.h5"]) = false →
  ∃ fs',
    train_model model batch logs flow_state flow next_batch train_on_batch
      evaluate serialize here m gen x_train y_train x_val y_val b e fs
    = Ok (history, m', fs') ∧
    fs' !! (here ++ ["generated_data"; "models"; "model.h5"] : path)
    = Some (File (serialize m')).
Proof.
  intros Hb Hfit Hfree Hpath. unfold train_model.
  rewrite decide_False by done. rewrite Hfit. cbn [mbind result_bind].
  assert (Hsave : ∀ fs1, is_dir fs1 (here ++ ["generated_data"; "models"; "model.h5"])
                         = false →
            ∃ fs', save model serialize m' fs1
                     ((here ++ ["generated_data"; "models"]) ++ ["model.h5"])
                   = Ok fs' ∧
                   fs' !! (here ++ ["generated_data"; "models"; "model.h5"] : path)
                   = Some (File (serialize m'))).
  { intros fs1 Hd. unfold save. rewrite <-app_assoc. simpl. rewrite Hd.
    eexists. split; [done|]. apply lookup_insert_eq. }
  destruct (is_dir fs (here ++ ["generated_data"; "models"])).
  - cbn [mbind result_bind]. destruct (Hsave fs Hpath) as (fs' & -> & Hfile).
    by exists fs'.
  - destruct (mkdir_from_ok [] (here ++ ["generated_data"; "models"]) fs Hfree)
      as (fs1 & Hmk & Hkeep).
    unfold mkdir_parents. rewrite Hmk. cbn [mbind result_bind].
    destruct (Hsave fs1) as (fs' & -> & Hfile).
    { unfold is_dir. rewrite Hkeep; [exact Hpath|].
      rewrite !length_app. simpl. lia. }
    by exists fs'.
Qed.

(** C10, as the code has it: with a batch size [b], [0 < b ≤ n], and
    [e ≥ 0] epochs, [train_model] (the artifact path being free to
    write) runs [e] epochs of [floor(n / b)] training steps each, on the
    batches the generator hands out one after the other, evaluates the
    validation data at the end of every epoch, returns a history of [e]
    records and the model so trained, and writes that model to the
    artifact file; without [batch_size] and [epochs] it runs with 32 and
    25. *)
Theorem train_model_steps_and_epochs (m : model) (gen : ImageDataGenerator)
    (x_train : list tensor) (y_train : list (list Z))
    (x_val : list tensor) (y_val : list (list Z)) (b e : Z)
    (fs : gmap path node) :
  0 < b → b ≤ Z.of_nat (length x_train) → 0 ≤ e →
  (∀ q, q `prefix_of` here ++ ["generated_data"; "models"] → is_file fs q = false) →
  is_dir fs (here ++ ["generated_data"; "models"; "model.h5"]) = false →
  let steps := Z.to_nat (Z.of_nat (length x_train) / b) in
  let bs := batches next_batch (Z.to_nat e * steps)
              (flow gen x_train y_train b) in
  (∃ history fs',
     train_model model batch logs flow_state flow next_batch train_on_batch
       evaluate serialize here m gen x_train y_train x_val y_val
       (Some b) (Some e) fs
     = Ok (history, (train_on train_on_batch m bs).1, fs') ∧
     Z.of_nat (length history) = e ∧
     Forall (λ r, Z.of_nat (length (batch_logs logs r))
                  = Z.of_nat (length x_train) / b) history ∧
     concat (batch_logs logs <$> history) = (train_on train_on_batch m bs).2 ∧
     (∀ i r, history !! i = Some r →
        val_logs logs r
        = evaluate (train_on train_on_batch m (take (S i * steps) bs)).1
            x_val y_val) ∧
     fs' !! (here ++ ["generated_data"; "models"; "model.h5"] : path)
     = Some (File (serialize (train_on train_on_batch m bs).1))) ∧
  train_model model batch logs flow_state flow next_batch train_on_batch
    evaluate serialize here m gen x_train y_train x_val y_val None None fs
  = train_model model batch logs flow_state flow next_batch train_on_batch
      evaluate serialize here m gen x_train y_train x_val y_val
      (Some 32) (Some 25) fs.
Proof.
  intros Hb Hn He Hfree Hpath steps bs. split; [|done].
  assert (Hdiv : 1 ≤ Z.of_nat (length x_train) / b).
  { apply Z.div_le_lower_bound; lia. }
  destruct (run_epochs_spec (Z.to_nat e) steps m (flow gen x_train y_train b)
              x_val y_val) as (history & Hrun & Hlen & Hall & Hlogs & Hval).
  { unfold steps. lia. }
  fold bs in Hrun, Hlogs, Hval.
  destruct (train_model_fit_Ok m gen x_train y_train x_val y_val (Some b)
              (Some e) fs (train_on train_on_batch m bs).1 history)
    as (fs' & Htrain & Hfile); [simpl; lia|exact Hrun|done|done|].
  exists history, fs'. split; [done|].
  split; [lia|]. split; [|done].
  eapply Forall_impl; [exact Hall|]. intros r Hr. simpl in Hr.
  rewrite Hr. unfold steps. lia.
Qed.
End TrainerProps.

Lemma train_model_steps_and_epochs_witness :
  (∃ history fs',
     train_model nat nat nat nat count_flow count_next count_train
       count_evaluate count_serialize ["project"] 0%nat get_image_generator
       (replicate 70 (full 1 1 1 0%Qc)) (replicate 70 [1; 0])
       data5 (replicate 5 [1; 0]) (Some 32) (Some 3) ∅
     = Ok (history,
           (train_on count_train 0%nat
              (batches count_next (3 * 2) 0%nat)).1, fs') ∧
     Z.of_nat (length history) = 3 ∧
     Forall (λ r, Z.of_nat (length (batch_logs nat r))
                  = Z.of_nat (length (replicate 70 (full 1 1 1 0%Qc))) / 32)
            history ∧
     concat (batch_logs nat <$> history)
     = (train_on count_train 0%nat (batches count_next (3 * 2) 0%nat)).2 ∧
     (∀ i r, history !! i = Some r →
        val_logs nat r
        = count_evaluate
            (train_on count_train 0%nat
               (take (S i * 2) (batches count_next (3 * 2) 0%nat))).1
            data5 (replicate 5 [1; 0])) ∧
     fs' !! (["project"; "generated_data"; "models"; "model.h5"] : path)
     = Some (File (count_serialize
                     (train_on count_train 0%nat
                        (batches count_next (3 * 2) 0%nat)).1))) ∧
  train_model nat nat nat nat count_flow count_next count_train
    count_evaluate count_serialize ["project"] 0%nat get_image_generator
    (replicate 70 (full 1 1 1 0%Qc)) (replicate 70 [1; 0])
    data5 (replicate 5 [1; 0]) None None ∅
  = train_model nat nat nat nat count_flow count_next count_train
      count_evaluate count_serialize ["project"] 0%nat get_image_generator
      (replicate 70 (full 1 1 1 0%Qc)) (replicate 70 [1; 0])
      data5 (replicate 5 [1; 0]) (Some 32) (Some 25) ∅.
Proof.
  apply (train_model_steps_and_epochs nat nat nat nat count_flow count_next
           count_train count_evaluate count_serialize ["project"] 0%nat
           get_image_generator (replicate 70 (full 1 1 1 0%Qc))
           (replicate 70 [1; 0]) data5 (replicate 5 [1; 0]) 32 3 ∅).
  - lia.
  - rewrite length_replicate. lia.
  - lia.
  - intros q _. reflexivity.
  - reflexivity.
Defined.

(** C10, as it is worded, fails: with 5 samples and the batch size 32
    there is no step to run, and [train_model] raises where the claim
    has it return a history of 3 records. *)
Lemma train_model_no_step_raises :
  train_model nat nat nat nat count_flow count_next count_train
    count_evaluate count_serialize ["project"] 0%nat get_image_generator
    data5 (replicate 5 [1; 0]) data5 (replicate 5 [1; 0]) (Some 32) (Some 3) ∅
  = Err KerasError.
Proof. reflexivity. Qed.

(** * Further properties of the code *)

(** ** [mapM] *)

Lemma mapM_Ok {A B} (f : A → result B) (l : list A) (l' : list B) :
  mapM f l = Ok l' ↔ Forall2 (λ a b, f a = Ok b) l l'.
Proof.
  revert l'. induction l as [|a l IH]; intros l'; simpl.
  - split; [intros [= <-]; constructor|]. by intros ->%Forall2_nil_inv_l.
  - destruct (f a) as [b|e] eqn:Ha; simpl.
    + destruct (mapM f l) as [bs|e] eqn:Hl; simpl.
      * split.
        -- intros [= <-]. constructor; [done|]. by apply IH.
        -- intros (b' & bs' & Hb & Hbs & ->)%Forall2_cons_inv_l.
           apply IH in Hbs. congruence.
      * split; [done|].
        intros (b' & bs' & Hb & Hbs & ->)%Forall2_cons_inv_l.
        apply IH in Hbs. done.
    + split; [done|].
      intros (b' & bs' & Hb & Hbs & ->)%Forall2_cons_inv_l. congruence.
Qed.

Lemma mapM_Err {A B} (f : A → result B) (l : list A) (e : error) :
  mapM f l = Err e → Exists (λ a, f a = Err e) l.
Proof.
  induction l as [|a l IH]; simpl; [done|].
  destruct (f a) as [b|e'] eqn:Ha; simpl.
  - destruct (mapM f l) as [bs|e'']; simpl; [done|].
    intros [= ->]. right. by apply IH.
  - intros [= ->]. by left.
Qed.

Lemma mapM_total {A B} (f : A → result B) (l : list A) :
  Forall (λ a, ∃ b, f a = Ok b) l → ∃ l', mapM f l = Ok l'.
Proof.
  induction 1 as [|a l [b Hb] _ [l' Hl']]; [by exists []|].
  exists (b :: l'). simpl. by rewrite Hb, Hl'.
Qed.

(** ** Loading the training data *)

Section DataAndLabelsProps.
Variable decode : list Byte.byte → option image.
Variable cv2_resize : image → nat * nat → image.

Lemma load_sample_Ok fs p t lbl :
  load_sample decode cv2_resize fs p = Ok (t, lbl) ↔
  (∃ img, cv2_imread decode fs p = Some img ∧
          t = img_to_array (cv2_resize img (28, 28)%nat)) ∧
  parts_m2 p = Ok lbl.
Proof.
  unfold load_sample. destruct (cv2_imread decode fs p) as [img|]; simpl.
  - destruct (parts_m2 p) as [l|e]; simpl.
    + split.
      * intros [= <- <-]. split; [by eexists|done].
      * intros [(img' & [= <-] & ->) [= ->]]. done.
    + split; [done|]. by intros [_ ?].
  - split; [done|]. by intros [(img & ? & _) _].
Qed.

Lemma load_sample_Err fs p e :
  load_sample decode cv2_resize fs p = Err e →
  (cv2_imread decode fs p = None ∧ e = DecodeError) ∨
  ((length p < 2)%nat ∧ e = IndexError).
Proof.
  unfold load_sample. destruct (cv2_imread decode fs p) as [img|]; simpl.
  - unfold parts_m2. destruct (last (removelast p)) as [l|] eqn:E; simpl; [done|].
    intros [= <-]. right. split; [|done].
    apply last_None in E. destruct p as [|a [|b p]]; simpl in *; try lia.
    discriminate.
  - intros [= <-]. by left.
Qed.

(** What a successful [get_data_and_labels] returns, sample by sample. *)
Lemma get_data_and_labels_inv fs paths data labels :
  get_data_and_labels decode cv2_resize fs paths = Ok (data, labels) →
  Forall2 (λ p t, ∃ img, cv2_imread decode fs p = Some img ∧
             t = amap (λ x, (x / Qc_of_Z 255)%Qc)
                      (img_to_array (cv2_resize img (28, 28)%nat)))
          paths data ∧
  Forall2 (λ p lbl, parts_m2 p = Ok lbl) paths labels.
Proof.
  unfold get_data_and_labels.
  destruct (mapM (load_sample decode cv2_resize fs) paths)
    as [samples|e] eqn:Hm; simpl; [|done].
  intros [= <- <-]. apply mapM_Ok in Hm. split.
  - apply Forall2_fmap_r, Forall2_fmap_r.
    eapply Forall2_impl; [exact Hm|]. intros p [t lbl] Hs. simpl.
    apply load_sample_Ok in Hs as [(img & ? & ->) _]. by exists img.
  - apply Forall2_fmap_r. eapply Forall2_impl; [exact Hm|].
    intros p [t lbl] Hs. simpl. by apply load_sample_Ok in Hs as [_ ?].
Qed.

(** X1: a successful [get_data_and_labels] returns one tensor and one
    label per path, in the order of the paths: the tensor is the
    decoded file resized and divided by 255, the label the name of the
    directory that holds the file. *)
Theorem get_data_and_labels_per_path fs paths data labels :
  get_data_and_labels decode cv2_resize fs paths = Ok (data, labels) →
  length data = length paths ∧ length labels = length paths ∧
  ∀ i p, paths !! i = Some p →
    ∃ img lbl,
      cv2_imread decode fs p = Some img ∧
      data !! i = Some (amap (λ x, (x / Qc_of_Z 255)%Qc)
                             (img_to_array (cv2_resize img (28, 28)%nat))) ∧
      labels !! i = Some lbl ∧ last (removelast p) = Some lbl.
Proof.
  intros [Hd Hl]%get_data_and_labels_inv.
  split; [by rewrite (Forall2_length _ _ _ Hd)|].
  split; [by rewrite (Forall2_length _ _ _ Hl)|].
  intros i p Hp.
  destruct (Forall2_lookup_l _ _ _ _ _ Hd Hp) as (t & Ht & img & Himg & ->).
  destruct (Forall2_lookup_l _ _ _ _ _ Hl Hp) as (lbl & Hlbl & Hparts).
  exists img, lbl. repeat split; try done.
  unfold parts_m2 in Hparts.
  destruct (last (removelast p)) as [s|]; simpl in Hparts; [|done].
  by injection Hparts as ->.
Qed.

(** X3: when every path has a parent directory, [get_data_and_labels]
    succeeds exactly when every file decodes; otherwise it stops with
    the decoding error of a file that does not. *)
Theorem get_data_and_labels_succeeds_iff fs paths :
  Forall (λ p, (2 ≤ length p)%nat) paths →
  match get_data_and_labels decode cv2_resize fs paths with
  | Ok _ => Forall (λ p, is_Some (cv2_imread decode fs p)) paths
  | Err e => e = DecodeError ∧
             Exists (λ p, cv2_imread decode fs p = None) paths
  end.
Proof.
  intros Hparts.
  destruct (get_data_and_labels decode cv2_resize fs paths) as [[data labels]|e]
    eqn:Hrun.
  - apply get_data_and_labels_inv in Hrun as [Hd _].
    apply Forall_forall. intros p [i Hi]%list_elem_of_lookup.
    destruct (Forall2_lookup_l _ _ _ _ _ Hd Hi) as (t & _ & img & -> & _).
    by eexists.
  - unfold get_data_and_labels in Hrun.
    destruct (mapM (load_sample decode cv2_resize fs) paths)
      as [samples|e'] eqn:Hm; simpl in Hrun; [done|].
    injection Hrun as ->. apply mapM_Err in Hm.
    apply Exists_exists in Hm as (p & Hp & He).
    apply load_sample_Err in He as [[Hnone ->]|[Hshort _]].
    + split; [done|]. apply Exists_exists. eauto.
    + rewrite Forall_forall in Hparts. specialize (Hparts p Hp). lia.
Qed.

(** [cv2.imread] with its default flag returns 3-channel, 8-bit images. *)
Hypothesis decode_wf : ∀ c img, decode c = Some img → ∃ h w, wf_image h w 3 img.
Hypothesis cv2_resize_shape : ∀ img h w c ow oh,
  wf_image h w c img → has_shape oh ow c (cv2_resize img (ow, oh)).
Hypothesis cv2_resize_range : ∀ img h w c dsize lo hi,
  wf_image h w c img →
  Forall (λ v, lo ≤ v ≤ hi) (values img) →
  Forall (λ v, lo ≤ v ≤ hi) (values (cv2_resize img dsize)).

(** X2: every tensor [get_data_and_labels] returns has shape
    (28, 28, 3) and values in [0, 1], as the comment on the division by
    255 says. *)
Theorem get_data_and_labels_unit_range fs paths data labels :
  get_data_and_labels decode cv2_resize fs paths = Ok (data, labels) →
  Forall (λ t, has_shape 28 28 3 t ∧ Forall (λ x, 0 ≤ x ≤ 1)%Qc (values t)) data.
Proof.
  intros [Hd _]%get_data_and_labels_inv.
  apply Forall_forall. intros t [i Hi]%list_elem_of_lookup.
  destruct (Forall2_lookup_r _ _ _ _ _ Hd Hi) as (p & _ & img & Himg & ->).
  unfold cv2_imread in Himg. destruct (fs !! p) as [[c|]|]; try done.
  destruct (decode_wf c img Himg) as (h & w & Hwf). split.
  - unfold img_to_array. do 2 apply has_shape_amap.
    by eapply cv2_resize_shape.
  - unfold img_to_array. rewrite !Forall_values_amap.
    eapply Forall_impl.
    { apply (cv2_resize_range img h w 3 (28, 28)%nat 0 255 Hwf).
      by destruct Hwf as (_ & _ & _ & ?). }
    intros v Hv. simpl in *.
    change (Qc_of_Z v / Qc_of_Z 255)%Qc with (img_as_float v).
    rewrite <-img_as_float_0, <-img_as_float_255.
    split; apply img_as_float_mono; lia.
Qed.
End DataAndLabelsProps.

(** ** More on the Image Sanitizer *)

Section SanitizerMore.
Variable casefold : string → string.
Variable scandir_order : list path → list path.
Hypothesis scandir_order_perm : ∀ l, scandir_order l ≡ₚ l.
Variable decode : list Byte.byte → option image.

Lemma remove_non_images_unlinked (fs : gmap path node)
    (raw_dir clean_dir : path) m out :
  copytree fs raw_dir clean_dir = Ok m →
  remove_non_images casefold scandir_order decode fs raw_dir clean_dir = Ok out →
  unlinked out
  = filter (λ p, undecodable decode m p = true)
      (filter (λ p, is_file m p)
         (sorted_on casefold (glob_rec scandir_order m clean_dir))).
Proof.
  intros Hcopy. unfold remove_non_images. rewrite Hcopy. cbn [mbind result_bind].
  destruct (checked_paths casefold scandir_order m clean_dir scandir_order_perm)
    as [Hnd Hin].
  destruct (check_images_spec decode _ m [] Hnd) as (fs' & Hrun & _).
  { apply Forall_forall. by intros q (_ & _ & ?)%Hin. }
  rewrite Hrun. cbn [mbind result_bind app]. by intros [= <-].
Qed.

Lemma remove_non_images_Err (fs : gmap path node)
    (raw_dir clean_dir : path) e :
  copytree fs raw_dir clean_dir = Err e →
  remove_non_images casefold scandir_order decode fs raw_dir clean_dir = Err e.
Proof. intros Hcopy. unfold remove_non_images. by rewrite Hcopy. Qed.

(** Every file below [clean_dir] after a pass decodes. *)
Lemma clean_decodes_after_pass (fs : gmap path node)
    (raw_dir clean_dir : path) out q c :
  remove_non_images casefold scandir_order decode fs raw_dir clean_dir = Ok out →
  strictly_under clean_dir q → fs_after out !! q = Some (File c) →
  is_Some (decode c).
Proof.
  intros Hrun Hq Hfile.
  destruct (remove_non_images_inv _ _ _ _ _ _ _ Hrun) as [m Hcopy].
  destruct (remove_non_images_Ok decode casefold scandir_order scandir_order_perm
              _ _ _ _ Hcopy) as (out' & Hrun' & Hgone & Hkept & _).
  assert (out' = out) as -> by congruence.
  destruct (undecodable decode m q) eqn:Hu.
  - rewrite (Hgone q Hq Hu) in Hfile. done.
  - rewrite Hkept in Hfile by (intros [_ ?]; congruence).
    unfold undecodable in Hu. rewrite Hfile in Hu. by destruct (decode c).
Qed.

(** X4: [remove_non_images] fails only if [copytree] does, with its
    error; after [copytree] the pass itself cannot fail, un-links
    exactly the files strictly below [clean_dir] that do not decode, and
    leaves every other path as [copytree] left it. *)
Theorem remove_non_images_outcome (fs : gmap path node)
    (raw_dir clean_dir : path) :
  match copytree fs raw_dir clean_dir with
  | Ok m =>
      ∃ out,
        remove_non_images casefold scandir_order decode fs raw_dir clean_dir = Ok out ∧
        (∀ q, fs_after out !! q =
              if decide (strictly_under clean_dir q
                         ∧ undecodable decode m q = true)
              then None else m !! q) ∧
        (∀ q, q ∈ unlinked out ↔
              strictly_under clean_dir q ∧ undecodable decode m q = true)
  | Err e =>
      remove_non_images casefold scandir_order decode fs raw_dir clean_dir = Err e
  end.
Proof.
  destruct (copytree fs raw_dir clean_dir) as [m|e] eqn:Hcopy;
    [|by apply remove_non_images_Err].
  destruct (remove_non_images_Ok decode casefold scandir_order scandir_order_perm
              _ _ _ _ Hcopy) as (out & Hrun & Hgone & Hkept & Hunl).
  exists out. split; [done|]. split; [|done].
  intros q. destruct (decide _) as [[??]|Hn]; [by apply Hgone|by apply Hkept].
Qed.

(** X5: after a pass that completes, every file strictly below
    [clean_dir] decodes, however the two directories lie and whatever
    [clean_dir] held before. *)
Theorem remove_non_images_leaves_images_only (fs : gmap path node)
    (raw_dir clean_dir : path) out :
  remove_non_images casefold scandir_order decode fs raw_dir clean_dir = Ok out →
  ∀ q c, strictly_under clean_dir q → fs_after out !! q = Some (File c) →
         is_Some (decode c).
Proof.
  intros Hrun q c Hq Hfile.
  destruct (remove_non_images_inv _ _ _ _ _ _ _ Hrun) as [m Hcopy].
  destruct (remove_non_images_Ok decode casefold scandir_order scandir_order_perm
              _ _ _ _ Hcopy) as (out' & Hrun' & Hgone & Hkept & _).
  assert (out' = out) as -> by congruence.
  destruct (undecodable decode m q) eqn:Hu.
  - rewrite (Hgone q Hq Hu) in Hfile. done.
  - rewrite Hkept in Hfile by (intros [_ ?]; congruence).
    unfold undecodable in Hu. rewrite Hfile in Hu. by destruct (decode c).
Qed.

(** X6: the pass un-links each file once, and in the order [sorted]
    gives the paths: by their parts with the case folded as pathlib
    folds it (not at all on POSIX, to lower case on Windows). *)
Theorem remove_non_images_unlinks_in_order (fs : gmap path node)
    (raw_dir clean_dir : path) out :
  remove_non_images casefold scandir_order decode fs raw_dir clean_dir = Ok out →
  NoDup (unlinked out) ∧ StronglySorted (path_le_on casefold) (unlinked out).
Proof.
  intros Hrun.
  destruct (remove_non_images_inv _ _ _ _ _ _ _ Hrun) as [m Hcopy].
  rewrite (remove_non_images_unlinked _ _ _ _ _ Hcopy Hrun). split.
  - apply NoDup_filter.
    apply (checked_paths casefold scandir_order m clean_dir scandir_order_perm).
  - do 2 apply StronglySorted_filter. apply sorted_on_sorted.
Qed.

(** X7: a pass that completes (with [copytree] the merge described
    above) never removes or replaces a directory, and leaves every path
    that is not at or below [clean_dir] as it was. *)
Theorem remove_non_images_keeps_dirs_and_outside (fs : gmap path node)
    (raw_dir clean_dir : path) out :
  remove_non_images casefold scandir_order decode fs raw_dir clean_dir = Ok out →
  (∀ q, fs !! q = Some Dir → fs_after out !! q = Some Dir) ∧
  (∀ q : path, ¬ clean_dir `prefix_of` q → fs_after out !! q = fs !! q).
Proof.
  intros Hrun.
  destruct (remove_non_images_inv _ _ _ _ _ _ _ Hrun) as [m Hcopy].
  destruct (remove_non_images_Ok decode casefold scandir_order scandir_order_perm
              _ _ _ _ Hcopy) as (out' & Hrun' & _ & Hkept & _).
  assert (out' = out) as -> by congruence.
  pose proof (λ q, copytree_lookup _ _ _ _ q Hcopy) as Hm.
  apply copytree_Ok in Hcopy as (_ & Hclash & _).
  split.
  - intros q Hq.
    assert (Hmq : m !! q = Some Dir).
    { rewrite Hm, Hq. destruct (mirror fs raw_dir clean_dir q) as [n|] eqn:E;
        [|done].
      specialize (Hclash q n E). unfold kind_clash in Hclash. simpl in Hclash.
      rewrite Hq in Hclash. by destruct n. }
    rewrite Hkept; [done|]. intros [_ Hu].
    unfold undecodable in Hu. by rewrite Hmq in Hu.
  - intros q Hq. rewrite Hkept by (by intros [[? _] _]).
    rewrite Hm. unfold mirror. by rewrite decide_False.
Qed.

(** X8: a pass that completes (with [copytree] the merge described
    above) carries every raw file that decodes over to the same relative
    place below [clean_dir], with the same bytes, and leaves no file
    there for a raw file that does not decode. *)
Theorem remove_non_images_mirrors_images (fs : gmap path node)
    (raw_dir clean_dir : path) out (rel : path) c :
  remove_non_images casefold scandir_order decode fs raw_dir clean_dir = Ok out →
  fs !! (raw_dir ++ rel : path) = Some (File c) →
  fs_after out !! (clean_dir ++ rel : path)
  = match decode c with Some _ => Some (File c) | None => None end.
Proof.
  intros Hrun Hraw.
  destruct (remove_non_images_inv _ _ _ _ _ _ _ Hrun) as [m Hcopy].
  destruct (remove_non_images_Ok decode casefold scandir_order scandir_order_perm
              _ _ _ _ Hcopy) as (out' & Hrun' & Hgone & Hkept & _).
  assert (out' = out) as -> by congruence.
  assert (Hmq : m !! (clean_dir ++ rel : path) = Some (File c)).
  { assert (Hmir : mirror fs raw_dir clean_dir (clean_dir ++ rel)
                     = Some (File c)).
    { unfold mirror. rewrite decide_True by (by apply prefix_app_r).
      rewrite drop_app_length. exact Hraw. }
    by rewrite (copytree_lookup _ _ _ _ _ Hcopy), Hmir. }
  assert (Hsu : strictly_under clean_dir (clean_dir ++ rel)).
  { split; [by apply prefix_app_r|]. intros Heq.
    assert (rel = []) as ->.
    { apply (f_equal length) in Heq. rewrite length_app in Heq.
      destruct rel; [done|simpl in Heq; lia]. }
    rewrite app_nil_r in Hraw.
    apply copytree_Ok in Hcopy as (Hsrc & _). unfold is_dir in Hsrc.
    by rewrite Hraw in Hsrc. }
  destruct (decode c) as [img|] eqn:Hdec.
  - rewrite Hkept; [done|]. intros [_ Hu].
    unfold undecodable in Hu. by rewrite Hmq, Hdec in Hu.
  - apply Hgone; [done|]. unfold undecodable. by rewrite Hmq, Hdec.
Qed.
End SanitizerMore.

(** ** More on the File Collector and on what it feeds *)

(** X10: [get_image_paths] returns every file below the root exactly
    once, and nothing else. *)
Theorem get_image_paths_each_file_once
    (so : list path → list path) (rng : Type) (seed : Z → rng)
    (randbelow : rng → nat → nat * rng) (fs : gmap path node) (g : rng)
    (root : path) :
  (∀ l, so l ≡ₚ l) →
  (∀ g n, (0 < n)%nat → ((randbelow g n).1 < n)%nat) →
  ∃ l g', get_image_paths so rng seed randbelow fs g root = Ok (l, g') ∧
          NoDup l ∧
          ∀ p, p ∈ l ↔ is_dir fs root = true ∧ strictly_under root p
                       ∧ is_file fs p = true.
Proof.
  intros Hso Hrb. unfold get_image_paths. rewrite filter_sorted_glob by done.
  destruct (shuffle_perm rng randbelow Hrb (files_below fs root) (seed 42))
    as (l & g' & Hl & Hp).
  exists l, g'. split; [done|]. split.
  - rewrite Hp. apply NoDup_files_below.
  - intros p. rewrite Hp. apply elem_of_files_below.
Qed.

Lemma strictly_under_length (d p : path) :
  strictly_under d p → (length d < length p)%nat.
Proof.
  intros [[k ->] Hne]. rewrite length_app.
  destruct k; [by rewrite app_nil_r in Hne|simpl; lia].
Qed.

(** X9: what the sanitizer leaves can be loaded: after a pass of
    [remove_non_images] that completes, [get_image_paths] on the clean
    directory followed by [get_data_and_labels] does not fail, and
    yields one tensor and one label per file. *)
Theorem sanitized_tree_loads (casefold : string → string)
    (so so' : list path → list path) (decode : list Byte.byte → option image)
    (cv2_resize : image → nat * nat → image) (rng : Type) (seed : Z → rng)
    (randbelow : rng → nat → nat * rng) (fs : gmap path node)
    (raw_dir clean_dir : path) (out : sanitized) (g : rng) :
  (∀ l, so l ≡ₚ l) → (∀ l, so' l ≡ₚ l) →
  (∀ g n, (0 < n)%nat → ((randbelow g n).1 < n)%nat) →
  clean_dir ≠ [] →
  remove_non_images casefold so decode fs raw_dir clean_dir = Ok out →
  ∃ paths g' data labels,
    get_image_paths so' rng seed randbelow (fs_after out) g clean_dir
      = Ok (paths, g') ∧
    get_data_and_labels decode cv2_resize (fs_after out) paths
      = Ok (data, labels) ∧
    length data = length paths ∧ length labels = length paths.
Proof.
  intros Hso Hso' Hrb Hne Hrun. unfold get_image_paths.
  rewrite filter_sorted_glob by done.
  destruct (shuffle_perm rng randbelow Hrb
              (files_below (fs_after out) clean_dir) (seed 42))
    as (paths & g' & Hpaths & Hperm).
  assert (Hload : Forall (λ p, ∃ s, load_sample decode cv2_resize
                                      (fs_after out) p = Ok s) paths).
  { apply Forall_forall. intros p Hp. rewrite Hperm in Hp.
    apply elem_of_files_below in Hp as (_ & Hsu & Hfile).
    unfold is_file in Hfile.
    destruct (fs_after out !! p) as [[c|]|] eqn:Hc; try done.
    destruct (clean_decodes_after_pass casefold so Hso decode _ _ _ _ _ _ Hrun Hsu Hc)
      as [img Himg].
    destruct (parts_m2_ok p) as [lbl Hlbl].
    { pose proof (strictly_under_length _ _ Hsu).
      destruct clean_dir; [done|simpl in *; lia]. }
    eexists. apply load_sample_Ok. split; [|exact Hlbl].
    exists img. split; [|done]. unfold cv2_imread. by rewrite Hc. }
  destruct (mapM_total _ _ Hload) as [samples Hsamples].
  exists paths, g', (map (amap (λ x, (x / Qc_of_Z 255)%Qc)) samples.*1),
    samples.*2.
  split; [done|].
  assert (Hgdl : get_data_and_labels decode cv2_resize (fs_after out) paths
                 = Ok (map (amap (λ x, (x / Qc_of_Z 255)%Qc)) samples.*1,
                       samples.*2)).
  { unfold get_data_and_labels. by rewrite Hsamples. }
  split; [done|].
  apply get_data_and_labels_inv in Hgdl as [Hd Hl].
  apply Forall2_length in Hd, Hl. by split.
Qed.

(** ** More on the Dataset Builder *)

Lemma safe_indexing_Ok {A} (a : list A) (idx : list nat) (l : list A) :
  safe_indexing a idx = Ok l ↔ Forall2 (λ i x, a !! i = Some x) idx l.
Proof.
  unfold safe_indexing. rewrite mapM_Ok.
  split; intros H; (eapply Forall2_impl; [exact H|]); intros i x; simpl;
    destruct (a !! i); simpl; congruence.
Qed.

Lemma Forall2_perm_l {A B} (R : A → B → Prop) (idx idx' : list A) :
  idx ≡ₚ idx' →
  ∀ xs, Forall2 R idx xs → ∃ xs', Forall2 R idx' xs' ∧ xs ≡ₚ xs'.
Proof.
  induction 1 as [|i idx idx' _ IH|i j idx|idx1 idx2 idx3 _ IH1 _ IH2];
    intros xs Hxs.
  - apply Forall2_nil_inv_l in Hxs as ->. by exists [].
  - apply Forall2_cons_inv_l in Hxs as (x & xs0 & Hx & Hxs0 & ->).
    destruct (IH xs0 Hxs0) as (xs' & Hxs' & Hp).
    exists (x :: xs'). split; [by constructor|by constructor].
  - apply Forall2_cons_inv_l in Hxs as (x & xs0 & Hx & Hxs0 & ->).
    apply Forall2_cons_inv_l in Hxs0 as (y & xs1 & Hy & Hxs1 & ->).
    exists (y :: x :: xs1). split; [by repeat constructor|by constructor].
  - destruct (IH1 xs Hxs) as (xs2 & Hxs2 & Hp1).
    destruct (IH2 xs2 Hxs2) as (xs3 & Hxs3 & Hp2).
    exists xs3. split; [done|by etrans].
Qed.

Lemma lookup_seq_all {A} (x xs : list A) :
  Forall2 (λ i a, x !! i = Some a) (seq 0 (length x)) xs → xs = x.
Proof.
  intros H. apply list_eq. intros i.
  destruct (decide (i < length x)%nat) as [Hi|Hi].
  - assert (Hs : seq 0 (length x) !! i = Some i) by (by apply lookup_seq).
    destruct (Forall2_lookup_l _ _ _ _ _ H Hs) as (a & -> & Ha). done.
  - rewrite (lookup_ge_None_2 x) by lia. apply lookup_ge_None_2.
    apply Forall2_length in H. rewrite length_seq in H. lia.
Qed.

(** Reading a list at a shuffle of all its indices gives a shuffle of
    the list. *)
Lemma lookup_all_perm {A} (x xs : list A) (idx : list nat) :
  idx ≡ₚ seq 0 (length x) →
  Forall2 (λ i a, x !! i = Some a) idx xs → xs ≡ₚ x.
Proof.
  intros Hp Hxs.
  destruct (Forall2_perm_l _ _ _ Hp xs Hxs) as (xs' & Hxs' & Hperm).
  by rewrite Hperm, (lookup_seq_all _ _ Hxs').
Qed.

Lemma Forall2_zip_r {I A B} (P : I → A → Prop) (Q : I → B → Prop)
    (idx : list I) (xs : list A) (ys : list B) :
  Forall2 P idx xs → Forall2 Q idx ys →
  Forall2 (λ i (ab : A * B), P i ab.1 ∧ Q i ab.2) idx (zip xs ys).
Proof.
  intros HP. revert ys. induction HP as [|i x idx xs Hx _ IH]; intros ys HQ.
  - apply Forall2_nil_inv_l in HQ as ->. constructor.
  - apply Forall2_cons_inv_l in HQ as (y & ys0 & Hy & Hys & ->).
    simpl. constructor; [done|by apply IH].
Qed.

Lemma index_of_lookup (l : list string) (s : string) :
  s ∈ l → l !! index_of l s = Some s ∧ (index_of l s < length l)%nat.
Proof.
  induction l as [|a l IH]; [by intros ?%elem_of_nil|].
  intros Hin. simpl. destruct (decide (a = s)) as [->|Hne].
  - split; [done|lia].
  - apply elem_of_cons in Hin as [->|Hin]; [done|].
    destruct (IH Hin). split; [done|lia].
Qed.

Lemma length_classes (labels : list string) :
  length (classes labels) = length (remove_dups labels).
Proof. unfold classes. by rewrite merge_sort_Permutation. Qed.

Lemma elem_of_classes (labels : list string) (s : string) :
  s ∈ classes labels ↔ s ∈ labels.
Proof. unfold classes. by rewrite merge_sort_Permutation, elem_of_remove_dups. Qed.

Lemma one_hot_lookup (k n j : nat) :
  (j < n)%nat → one_hot k n !! j = Some (if decide (j = k) then 1 else 0).
Proof.
  intros Hj. unfold one_hot. rewrite list_lookup_fmap.
  by rewrite (proj2 (lookup_seq 0 n j j)).
Qed.

Lemma length_one_hot (k n : nat) : length (one_hot k n) = n.
Proof. unfold one_hot. by rewrite length_map, length_seq. Qed.

Global Instance string_le_total : Total string_le.
Proof. intros a b. apply String.leb_total. Qed.

(** X14: the label encoding of [get_model_input] can be decoded: the
    code of a label is below [num_classes], the number of distinct
    labels, and is the position of that label among the distinct labels
    in sorted order. *)
Theorem label_encoding_round_trip (labels : list string) (i : nat) (lbl : string) :
  labels !! i = Some lbl →
  ∃ k, fit_transform labels !! i = Some k ∧
       (k < length (remove_dups labels))%nat ∧
       classes labels !! k = Some lbl ∧
       NoDup (classes labels) ∧ Sorted string_le (classes labels).
Proof.
  intros Hi. exists (index_of (classes labels) lbl).
  assert (Hin : lbl ∈ classes labels).
  { apply elem_of_classes, list_elem_of_lookup. eauto. }
  destruct (index_of_lookup _ _ Hin) as [Hk Hlt].
  split; [|split; [|split; [done|split]]].
  - unfold fit_transform. by rewrite list_lookup_fmap, Hi.
  - by rewrite <-length_classes.
  - unfold classes. rewrite merge_sort_Permutation. apply NoDup_remove_dups.
  - unfold classes. apply Sorted_merge_sort, _.
Qed.

Section SplitMore.
Variable permutation : Z → nat → list nat.
Hypothesis permutation_perm : ∀ s n, permutation s n ≡ₚ seq 0 n.

Lemma split_indices_perm (n n_val : nat) :
  (n_val ≤ n)%nat →
  take n_val (permutation 42 n)
    ++ take (n - n_val) (drop n_val (permutation 42 n)) ≡ₚ seq 0 n.
Proof.
  intros Hle.
  rewrite (take_ge (drop n_val _)).
  - by rewrite take_drop.
  - rewrite length_drop, permutation_perm, length_seq. lia.
Qed.

(** What a successful [get_model_input] returns, in terms of the
    indices drawn. *)
Lemma get_model_input_inv (data : list tensor) (labels : list string) mi :
  get_model_input permutation data labels = Ok mi →
  let n := length data in
  let n_val := Z.to_nat (Qceiling (quarter * Qc_of_Z (Z.of_nat n))%Qc) in
  let ind_val := take n_val (permutation 42 n) in
  let ind_train := take (n - n_val) (drop n_val (permutation 42 n)) in
  let K := length (remove_dups labels) in
  length labels = n ∧ (n_val < n)%nat ∧
  Forall2 (λ i a, data !! i = Some a) ind_train (x_train mi) ∧
  Forall2 (λ i a, data !! i = Some a) ind_val (x_val mi) ∧
  Forall2 (λ i r, ∃ lbl, labels !! i = Some lbl ∧
                         r = one_hot (index_of (classes labels) lbl) K)
          ind_train (y_train mi) ∧
  Forall2 (λ i r, ∃ lbl, labels !! i = Some lbl ∧
                         r = one_hot (index_of (classes labels) lbl) K)
          ind_val (y_val mi).
Proof.
  intros Hrun n n_val ind_val ind_train K.
  unfold get_model_input, train_test_split in Hrun.
  fold n in Hrun. fold n_val in Hrun. fold ind_val in Hrun.
  fold ind_train in Hrun.
  destruct (n =? length (fit_transform labels))%nat eqn:Hlen;
    cbn [negb] in Hrun; [|done].
  apply Nat.eqb_eq in Hlen. unfold fit_transform in Hlen.
  rewrite length_map in Hlen.
  destruct (n - n_val =? 0)%nat eqn:Hz; [done|]. apply Nat.eqb_neq in Hz.
  destruct (safe_indexing data ind_train) as [xt|] eqn:Hxt; [|done].
  destruct (safe_indexing data ind_val) as [xv|] eqn:Hxv; [|done].
  destruct (safe_indexing (fit_transform labels) ind_train) as [yt|] eqn:Hyt;
    [|done].
  destruct (safe_indexing (fit_transform labels) ind_val) as [yv|] eqn:Hyv;
    [|done].
  cbn [mbind result_bind] in Hrun. injection Hrun as <-.
  cbn [x_train x_val y_train y_val].
  apply safe_indexing_Ok in Hxt, Hxv, Hyt, Hyv.
  assert (Hrows : ∀ idx ys,
            Forall2 (λ i b, fit_transform labels !! i = Some b) idx ys →
            Forall2 (λ i r, ∃ lbl, labels !! i = Some lbl ∧
                       r = one_hot (index_of (classes labels) lbl) K)
                    idx (to_categorical ys K)).
  { intros idx ys Hys. unfold to_categorical. apply Forall2_fmap_r.
    eapply Forall2_impl; [exact Hys|]. intros i b Hb. simpl.
    unfold fit_transform in Hb. rewrite list_lookup_fmap in Hb.
    destruct (labels !! i) as [lbl|]; [|done]. injection Hb as <-.
    by exists lbl. }
  repeat split; try done; [lia|by apply Hrows..].
Qed.

(** X11: the split loses and repeats nothing: training and validation
    samples together are the samples given, each once. *)
Theorem get_model_input_partition (data : list tensor) (labels : list string) mi :
  get_model_input permutation data labels = Ok mi →
  x_val mi ++ x_train mi ≡ₚ data.
Proof.
  intros (_ & Hlt & Hxt & Hxv & _)%get_model_input_inv.
  eapply lookup_all_perm; [|by apply Forall2_app].
  apply split_indices_perm. lia.
Qed.

(** X12: labels follow their samples through the split.  Read at the
    indices drawn with seed 42, the samples and the labels given are,
    position by position, the samples of the validation part followed by
    those of the training part, and the one-hot rows of their labels; so
    the pairs of a sample and its row that come out are the pairs that
    went in, each as often as it went in. *)
Theorem get_model_input_labels_follow_samples
    (data : list tensor) (labels : list string) mi :
  get_model_input permutation data labels = Ok mi →
  let row lbl := one_hot (index_of (classes labels) lbl)
                         (length (remove_dups labels)) in
  length (y_train mi) = length (x_train mi) ∧
  length (y_val mi) = length (x_val mi) ∧
  Forall2 (λ i (ar : tensor * list Z),
             data !! i = Some ar.1 ∧
             ∃ lbl, labels !! i = Some lbl ∧ ar.2 = row lbl)
          (permutation 42 (length data))
          (zip (x_val mi ++ x_train mi) (y_val mi ++ y_train mi)) ∧
  zip (x_val mi ++ x_train mi) (y_val mi ++ y_train mi)
    ≡ₚ zip data (row <$> labels).
Proof.
  intros (Hlen & Hlt & Hxt & Hxv & Hyt & Hyv)%get_model_input_inv row.
  set (n := length data) in *.
  set (n_val := Z.to_nat (Qceiling (quarter * Qc_of_Z (Z.of_nat n))%Qc)) in *.
  assert (Hpl : length (permutation 42 n) = n).
  { by rewrite permutation_perm, length_seq. }
  assert (Hidx : take n_val (permutation 42 n)
                   ++ take (n - n_val) (drop n_val (permutation 42 n))
                 = permutation 42 n).
  { rewrite (take_ge (drop n_val _)) by (rewrite length_drop; lia).
    apply take_drop. }
  assert (Hpos : Forall2 (λ i (ar : tensor * list Z),
                   data !! i = Some ar.1 ∧
                   ∃ lbl, labels !! i = Some lbl ∧ ar.2 = row lbl)
                 (permutation 42 n)
                 (zip (x_val mi ++ x_train mi) (y_val mi ++ y_train mi))).
  { rewrite <-Hidx.
    apply (Forall2_zip_r (λ i (a : tensor), data !! i = Some a)
             (λ i (r : list Z), ∃ lbl, labels !! i = Some lbl ∧ r = row lbl));
      by apply Forall2_app. }
  split; [by rewrite <-(Forall2_length _ _ _ Hyt), (Forall2_length _ _ _ Hxt)|].
  split; [by rewrite <-(Forall2_length _ _ _ Hyv), (Forall2_length _ _ _ Hxv)|].
  split; [exact Hpos|].
  eapply lookup_all_perm.
  - rewrite length_zip, length_fmap, Hlen, Nat.min_id. fold n.
    apply permutation_perm.
  - eapply Forall2_impl; [exact Hpos|].
    intros i [a r] (Ha & lbl & Hl & Hr). simpl in *. subst r.
    apply lookup_zip_with_Some. exists a, (row lbl).
    split; [done|]. split; [done|]. by rewrite list_lookup_fmap, Hl.
Qed.

(** X13: every row of [y_train] and [y_val] is a one-hot row over the
    distinct labels: as long as there are distinct labels, with a single
    1, the rest 0. *)
Theorem get_model_input_one_hot_rows
    (data : list tensor) (labels : list string) mi :
  get_model_input permutation data labels = Ok mi →
  let K := length (remove_dups labels) in
  Forall (λ r, length r = K ∧
               ∃ k, (k < K)%nat ∧
                    ∀ j, (j < K)%nat →
                         r !! j = Some (if decide (j = k) then 1 else 0))
         (y_train mi ++ y_val mi).
Proof.
  intros (_ & _ & _ & _ & Hyt & Hyv)%get_model_input_inv K.
  apply Forall_app. split.
  - eapply Forall2_Forall_r; [exact Hyt|]. apply Forall_forall.
    intros i _ r (lbl & Hl & ->). split; [apply length_one_hot|].
    exists (index_of (classes labels) lbl). split.
    + unfold K. rewrite <-length_classes. apply index_of_lookup.
      apply elem_of_classes, list_elem_of_lookup. eauto.
    + intros j Hj. by apply one_hot_lookup.
  - eapply Forall2_Forall_r; [exact Hyv|]. apply Forall_forall.
    intros i _ r (lbl & Hl & ->). split; [apply length_one_hot|].
    exists (index_of (classes labels) lbl). split.
    + unfold K. rewrite <-length_classes. apply index_of_lookup.
      apply elem_of_classes, list_elem_of_lookup. eauto.
    + intros j Hj. by apply one_hot_lookup.
Qed.

Lemma train_test_split_Err {A B} (x : list A) (y : list B) (e : error) :
  train_test_split permutation x y quarter 42 = Err e →
  e = ValueError ∧ (length x ≠ length y ∨ (length x ≤ 1)%nat).
Proof.
  unfold train_test_split.
  destruct (length x =? length y)%nat eqn:Hlen; cbn [negb].
  2:{ intros [= <-]. split; [done|]. left. by apply Nat.eqb_neq. }
  apply Nat.eqb_eq in Hlen.
  set (n := length x). set (n_test := Z.to_nat _).
  pose proof (n_test_quarter n) as Hq. fold n_test in Hq.
  destruct (n - n_test =? 0)%nat eqn:Hz.
  { apply Nat.eqb_eq in Hz. intros [= <-]. split; [done|]. right. lia. }
  assert (Hb : Forall (λ i, (i < n)%nat) (permutation 42 n)).
  { apply Forall_forall. intros i Hi. rewrite permutation_perm in Hi.
    apply elem_of_seq in Hi. lia. }
  assert (Htest : Forall (λ i, (i < n)%nat) (take n_test (permutation 42 n))).
  { by apply Forall_take. }
  assert (Htrain : Forall (λ i, (i < n)%nat)
                          (take (n - n_test) (drop n_test (permutation 42 n)))).
  { by apply Forall_take, Forall_drop. }
  destruct (safe_indexing_total x _ Htrain) as (xt & -> & _).
  destruct (safe_indexing_total x _ Htest) as (xv & -> & _).
  destruct (safe_indexing_total y (take (n - n_test) (drop n_test (permutation 42 n))))
    as (yt & -> & _); [by rewrite <-Hlen|].
  destruct (safe_indexing_total y (take n_test (permutation 42 n)))
    as (yv & -> & _); [by rewrite <-Hlen|].
  done.
Qed.

Lemma get_model_input_Err (data : list tensor) (labels : list string) e :
  get_model_input permutation data labels = Err e →
  e = ValueError ∧ (length labels ≠ length data ∨ (length data ≤ 1)%nat).
Proof.
  unfold get_model_input. intros Hrun.
  destruct (train_test_split permutation data (fit_transform labels) quarter 42)
    as [[[[xt xv] yt] yv]|e'] eqn:Hsplit; cbn [mbind result_bind] in Hrun;
    [done|].
  injection Hrun as <-.
  apply train_test_split_Err in Hsplit as [-> Hwhy]. split; [done|].
  unfold fit_transform in Hwhy. rewrite length_map in Hwhy.
  destruct Hwhy as [?|?]; [left; congruence|by right].
Qed.

Lemma get_model_input_lengths (data : list tensor) (labels : list string) mi :
  get_model_input permutation data labels = Ok mi →
  let n_val := Z.to_nat (Qceiling (quarter * Qc_of_Z (Z.of_nat (length data)))%Qc) in
  length (x_train mi) = (length data - n_val)%nat ∧ length (x_val mi) = n_val ∧
  (n_val < length data)%nat.
Proof.
  intros (_ & Hlt & Hxt & Hxv & _)%get_model_input_inv n_val.
  cbv zeta in Hlt, Hxt, Hxv. fold n_val in Hlt, Hxt, Hxv.
  apply Forall2_length in Hxt, Hxv.
  assert (Hpl : length (permutation 42 (length data)) = length data).
  { by rewrite permutation_perm, length_seq. }
  rewrite length_take, length_drop, Hpl in Hxt.
  rewrite length_take, Hpl in Hxv. lia.
Qed.

(** X15: [get_model_input] succeeds exactly when there are as many
    labels as samples and at least two samples; otherwise it fails with
    [ValueError]. *)
Theorem get_model_input_succeeds_iff (data : list tensor) (labels : list string) :
  match get_model_input permutation data labels with
  | Ok _ => length labels = length data ∧ (2 ≤ length data)%nat
  | Err e => e = ValueError ∧
             (length labels ≠ length data ∨ (length data ≤ 1)%nat)
  end.
Proof.
  destruct (get_model_input permutation data labels) as [mi|e] eqn:Hrun.
  - apply get_model_input_inv in Hrun as (Hlen & Hlt & _). split; [done|].
    cbv zeta in Hlt. pose proof (n_test_quarter (length data)). lia.
  - by apply get_model_input_Err.
Qed.

(** X16: what [get_data_and_labels] returns for two or more paths is
    always accepted by [get_model_input], and the training and
    validation parts together hold as many samples as there were
    paths. *)
Theorem loaded_data_splits (decode : list Byte.byte → option image)
    (cv2_resize : image → nat * nat → image) (fs : gmap path node)
    (paths : list path) (data : list tensor) (labels : list string) :
  get_data_and_labels decode cv2_resize fs paths = Ok (data, labels) →
  (2 ≤ length paths)%nat →
  ∃ mi, get_model_input permutation data labels = Ok mi ∧
        (length (x_train mi) + length (x_val mi) = length paths)%nat.
Proof.
  intros [Hd Hl]%get_data_and_labels_inv Hn.
  apply Forall2_length in Hd, Hl.
  destruct (get_model_input permutation data labels) as [mi|e] eqn:Hrun.
  - exists mi. split; [done|].
    pose proof (get_model_input_lengths _ _ _ Hrun) as Hlen.
    cbv zeta in Hlen. destruct Hlen as (Ht & Hv & Hlt).
    rewrite Ht, Hv, Hd. unfold tensor in *. lia.
  - apply get_model_input_Err in Hrun as [_ [?|?]]; unfold tensor in *;
      [congruence|lia].
Qed.
End SplitMore.

(** ** More on the Trainer *)

Lemma mkdir_from_inv (base rest : path) (fs fs' : gmap path node) :
  mkdir_from base rest fs = Ok fs' →
  (rest ≠ [] → fs' !! (base ++ rest : path) = Some Dir) ∧
  (∀ q : path, ¬ q `prefix_of` base ++ rest → fs' !! q = fs !! q).
Proof.
  revert base fs. induction rest as [|name rest IH]; intros base fs Hrun.
  { injection Hrun as <-. done. }
  cbn [mkdir_from] in Hrun.
  destruct (is_file fs (base ++ [name])); [done|].
  assert (Hlast : rest = [] → fs' = <[base ++ [name]:=Dir]> fs).
  { intros ->. by injection Hrun as <-. }
  apply IH in Hrun as [Hdir Hkeep].
  rewrite <-app_assoc in Hdir, Hkeep. simpl in Hdir, Hkeep. split.
  - intros _. destruct rest as [|name' rest]; [|by apply Hdir].
    rewrite Hlast by done. apply lookup_insert_eq.
  - intros q Hq. rewrite (Hkeep q Hq). apply lookup_insert_ne.
    intros <-. apply Hq. by apply prefix_app, prefix_cons, prefix_nil.
Qed.

Section TrainerMore.
Variables (model batch logs flow_state : Type).
Variable flow : ImageDataGenerator → list tensor → list (list Z) → Z → flow_state.
Variable next_batch : flow_state → batch * flow_state.
Variable train_on_batch : model → batch → model * logs.
Variable evaluate : model → list tensor → list (list Z) → logs.
Variable serialize : model → list Byte.byte.
Variable here : path.

(** X17: when [len(x_train) // batch_size] is zero or negative (fewer
    training samples than the batch size, or a negative batch size) and
    at least one epoch is asked for, the first epoch has no step to run
    and [train_model] raises inside Keras: it returns no history,
    whatever the file system holds. *)
Theorem train_model_small_set_raises (m : model) (gen : ImageDataGenerator)
    (x_train : list tensor) (y_train : list (list Z))
    (x_val : list tensor) (y_val : list (list Z)) (b e : Z)
    (fs : gmap path node) :
  b ≠ 0 → Z.of_nat (length x_train) / b ≤ 0 → 0 < e →
  train_model model batch logs flow_state flow next_batch train_on_batch
    evaluate serialize here m gen x_train y_train x_val y_val
    (Some b) (Some e) fs = Err KerasError.
Proof.
  intros Hb Hsteps He. unfold train_model.
  change (default 32 (Some b)) with b. change (default 25 (Some e)) with e.
  rewrite decide_False by done. unfold fit_generator.
  rewrite (Z2Nat.nonpos (_ / b)) by done.
  destruct (Z.to_nat e) as [|k] eqn:Ee; [lia|]. done.
Qed.

(** X18: a [train_model] that returns has written the model it returns
    to [generated_data/models/model.h5] next to the module, inside a
    directory, over whatever file was there; every path that is not on
    the way to the artifact is as it was. *)
Theorem train_model_saves_artifact (m : model) (gen : ImageDataGenerator)
    (x_train : list tensor) (y_train : list (list Z))
    (x_val : list tensor) (y_val : list (list Z)) (b e : option Z)
    (fs : gmap path node) history m' fs' :
  train_model model batch logs flow_state flow next_batch train_on_batch
    evaluate serialize here m gen x_train y_train x_val y_val b e fs
  = Ok (history, m', fs') →
  let model_dir : path := here ++ ["generated_data"; "models"] in
  let model_path : path := model_dir ++ ["model.h5"] in
  fs' !! model_path = Some (File (serialize m')) ∧
  is_dir fs' model_dir = true ∧
  ∀ q : path, ¬ q `prefix_of` model_path → fs' !! q = fs !! q.
Proof.
  intros Hrun model_dir model_path. unfold train_model in Hrun.
  destruct (decide (default 32 b = 0)); [done|].
  destruct (fit_generator _ _ _ _ _ _ _ _ _ _ _ _ _) as [[m1 h]|]; [|done].
  cbn [mbind result_bind] in Hrun.
  fold model_dir in Hrun. fold model_path in Hrun.
  assert (Hne : model_dir ≠ model_path).
  { intros Heq. apply (f_equal length) in Heq. unfold model_path in Heq.
    rewrite length_app in Heq. simpl in Heq. lia. }
  assert (Hpre : model_dir `prefix_of` model_path) by (by apply prefix_app_r).
  destruct (if is_dir fs model_dir then Ok fs else mkdir_parents fs model_dir)
    as [fs1|] eqn:Hstep; [|done].
  assert (Hmk : is_dir fs1 model_dir = true ∧
                ∀ q : path, ¬ q `prefix_of` model_dir → fs1 !! q = fs !! q).
  { destruct (is_dir fs model_dir) eqn:Hd.
    - by injection Hstep as <-.
    - unfold mkdir_parents in Hstep.
      apply mkdir_from_inv in Hstep as [Hdir Hkeep]. simpl in Hdir, Hkeep.
      split; [|done]. unfold is_dir. rewrite Hdir; [done|].
      unfold model_dir. by destruct here. }
  destruct Hmk as (Hdir & Hkeep).
  cbn [mbind result_bind] in Hrun. unfold save in Hrun.
  destruct (is_dir fs1 model_path); [done|].
  cbn [mbind result_bind] in Hrun. injection Hrun as <- <- <-.
  split; [apply lookup_insert_eq|]. split.
  - unfold is_dir in *. by rewrite lookup_insert_ne.
  - intros q Hq. rewrite lookup_insert_ne by (by intros <-).
    apply Hkeep. intros Hq'. apply Hq. by etrans.
Qed.
End TrainerMore.

(** X19: with the defaults (batch size 32, a quarter of the samples
    held out) the split of a dataset can be trained on only from 43
    samples on.  With at most 42 samples the training part has fewer
    than 32, the first epoch has no step and [train_model] raises; with
    43 or more (the artifact path being free to write) it returns 25
    records, each of at least one step. *)
Theorem default_run_needs_43_samples
    (permutation : Z → nat → list nat)
    (model batch logs flow_state : Type)
    (flow : ImageDataGenerator → list tensor → list (list Z) → Z → flow_state)
    (next_batch : flow_state → batch * flow_state)
    (train_on_batch : model → batch → model * logs)
    (evaluate : model → list tensor → list (list Z) → logs)
    (serialize : model → list Byte.byte) (here : path)
    (data : list tensor) (labels : list string) (mi : model_input)
    (m : model) (fs : gmap path node) :
  (∀ s n, permutation s n ≡ₚ seq 0 n) →
  get_model_input permutation data labels = Ok mi →
  ((length data ≤ 42)%nat →
   train_model model batch logs flow_state flow next_batch train_on_batch
     evaluate serialize here m (image_generator mi) (x_train mi) (y_train mi)
     (x_val mi) (y_val mi) None None fs = Err KerasError) ∧
  ((43 ≤ length data)%nat →
   (∀ q, q `prefix_of` here ++ ["generated_data"; "models"] →
         is_file fs q = false) →
   is_dir fs (here ++ ["generated_data"; "models"; "model.h5"]) = false →
   ∃ history m' fs',
     train_model model batch logs flow_state flow next_batch train_on_batch
       evaluate serialize here m (image_generator mi) (x_train mi) (y_train mi)
       (x_val mi) (y_val mi) None None fs = Ok (history, m', fs') ∧
     length history = 25%nat ∧
     Forall (λ r, batch_logs logs r ≠ []) history).
Proof.
  intros Hperm Hsplit.
  pose proof (get_model_input_lengths permutation Hperm _ _ _ Hsplit) as Hlen.
  cbv zeta in Hlen. destruct Hlen as (Ht & _ & _).
  pose proof (n_test_quarter (length data)) as Hq.
  split.
  - intros Hn.
    assert (Hsmall : Z.of_nat (length (x_train mi)) < 32).
    { rewrite Ht. unfold tensor in *. lia. }
    apply train_model_fit_Err; [done|].
    apply fit_generator_no_step; [|done].
    change (default 32 None) with 32. rewrite Z.div_small; lia.
  - intros Hn Hfree Hpath.
    assert (Hbig : 32 ≤ Z.of_nat (length (x_train mi))).
    { rewrite Ht. unfold tensor in *. lia. }
    assert (Hdiv : 1 ≤ Z.of_nat (length (x_train mi)) / 32).
    { apply Z.div_le_lower_bound; lia. }
    destruct (run_epochs_spec model batch logs flow_state next_batch
                train_on_batch evaluate 25
                (Z.to_nat (Z.of_nat (length (x_train mi)) / 32)) m
                (flow (image_generator mi) (x_train mi) (y_train mi) 32)
                (x_val mi) (y_val mi))
      as (history & Hrun & Hlen & Hall & _); [lia|].
    destruct (train_model_fit_Ok model batch logs flow_state flow next_batch
                train_on_batch evaluate serialize here m (image_generator mi)
                (x_train mi) (y_train mi) (x_val mi) (y_val mi) None None fs
                _ history ltac:(done) Hrun Hfree Hpath)
      as (fs' & Htrain & _).
    eexists history, _, fs'. split; [exact Htrain|]. split; [done|].
    eapply Forall_impl; [exact Hall|]. intros r Hr Hnil. simpl in Hr.
    rewrite Hnil in Hr. simpl in Hr. lia.
Qed.

(** ** The further properties at concrete inputs *)

Lemma magic_decode_wf c img :
  magic_decode c = Some img → ∃ h w, wf_image h w 3 img.
Proof.
  unfold magic_decode. intros Hdec. exists 1%nat, 1%nat.
  destruct c as [|b0 [|b1 [|b c]]].
  - done.
  - by destruct b0.
  - destruct b0; try done. by destruct b1.
  - destruct b0; try done. destruct b1; try done. injection Hdec as <-.
    pose proof (Byte.to_N_bounded b).
    repeat split; try lia; repeat constructor; lia.
Qed.

Lemma get_data_and_labels_per_path_witness :
  ∃ data labels,
    get_data_and_labels magic_decode nn_cv2_resize fs_white
      [["clean"; "apple"; "w.jpg"]] = Ok (data, labels) ∧
    length data = 1%nat ∧ length labels = 1%nat.
Proof.
  destruct (get_data_and_labels magic_decode nn_cv2_resize fs_white
              [["clean"; "apple"; "w.jpg"]]) as [[data labels]|e] eqn:E;
    [|vm_compute in E; discriminate].
  exists data, labels. split; [reflexivity|].
  destruct (get_data_and_labels_per_path magic_decode nn_cv2_resize fs_white
              [["clean"; "apple"; "w.jpg"]] data labels E) as (Hd & Hl & _).
  split; [exact Hd|exact Hl].
Defined.

Lemma get_data_and_labels_unit_range_witness :
  ∃ data labels,
    get_data_and_labels magic_decode nn_cv2_resize fs_white
      [["clean"; "apple"; "w.jpg"]] = Ok (data, labels) ∧
    Forall (λ t, has_shape 28 28 3 t ∧ Forall (λ x, 0 ≤ x ≤ 1)%Qc (values t))
           data.
Proof.
  destruct (get_data_and_labels magic_decode nn_cv2_resize fs_white
              [["clean"; "apple"; "w.jpg"]]) as [[data labels]|e] eqn:E;
    [|vm_compute in E; discriminate].
  exists data, labels. split; [reflexivity|].
  exact (get_data_and_labels_unit_range magic_decode nn_cv2_resize
           magic_decode_wf nn_cv2_resize_shape nn_cv2_resize_range fs_white
           [["clean"; "apple"; "w.jpg"]] data labels E).
Defined.

Lemma get_data_and_labels_succeeds_iff_witness :
  Forall (λ p : path, (2 ≤ length p)%nat)
         [["raw"; "apple"; "a.jpg"]; ["raw"; "apple"; "notes.txt"]] ∧
  match get_data_and_labels magic_decode nn_cv2_resize fs_apart
          [["raw"; "apple"; "a.jpg"]; ["raw"; "apple"; "notes.txt"]] with
  | Ok _ => Forall (λ p, is_Some (cv2_imread magic_decode fs_apart p))
                   [["raw"; "apple"; "a.jpg"]; ["raw"; "apple"; "notes.txt"]]
  | Err e => e = DecodeError ∧
             Exists (λ p, cv2_imread magic_decode fs_apart p = None)
                    [["raw"; "apple"; "a.jpg"]; ["raw"; "apple"; "notes.txt"]]
  end.
Proof.
  assert (H : Forall (λ p : path, (2 ≤ length p)%nat)
                [["raw"; "apple"; "a.jpg"]; ["raw"; "apple"; "notes.txt"]]).
  { repeat constructor; simpl; lia. }
  split; [exact H|].
  exact (get_data_and_labels_succeeds_iff magic_decode nn_cv2_resize fs_apart
           [["raw"; "apple"; "a.jpg"]; ["raw"; "apple"; "notes.txt"]] H).
Defined.

Lemma remove_non_images_outcome_witness :
  match copytree fs_apart ["raw"] ["clean"] with
  | Ok m =>
      ∃ out,
        remove_non_images posix_casefold as_listed magic_decode fs_apart ["raw"] ["clean"]
          = Ok out ∧
        (∀ q, fs_after out !! q =
              if decide (strictly_under ["clean"] q
                         ∧ undecodable magic_decode m q = true)
              then None else m !! q) ∧
        (∀ q, q ∈ unlinked out ↔
              strictly_under ["clean"] q ∧ undecodable magic_decode m q = true)
  | Err e =>
      remove_non_images posix_casefold as_listed magic_decode fs_apart ["raw"] ["clean"] = Err e
  end.
Proof.
  exact (remove_non_images_outcome posix_casefold as_listed as_listed_perm magic_decode
           fs_apart ["raw"] ["clean"]).
Defined.

Lemma remove_non_images_leaves_images_only_witness :
  ∃ out,
    remove_non_images posix_casefold as_listed magic_decode fs_apart ["raw"] ["clean"] = Ok out ∧
    ∀ q c, strictly_under ["clean"] q → fs_after out !! q = Some (File c) →
           is_Some (magic_decode c).
Proof.
  destruct (remove_non_images posix_casefold as_listed magic_decode fs_apart ["raw"] ["clean"])
    as [out|e] eqn:E; [|vm_compute in E; discriminate].
  exists out. split; [reflexivity|].
  exact (remove_non_images_leaves_images_only posix_casefold as_listed as_listed_perm
           magic_decode fs_apart ["raw"] ["clean"] out E).
Defined.

Lemma remove_non_images_unlinks_in_order_witness :
  ∃ out,
    remove_non_images nt_casefold listed_backwards magic_decode fs_mixed_case
      ["raw"] ["clean"] = Ok out ∧
    unlinked out = [["clean"; "apple"; "a.txt"]; ["clean"; "apple"; "B.txt"]] ∧
    NoDup (unlinked out) ∧
    StronglySorted (path_le_on nt_casefold) (unlinked out).
Proof.
  destruct (remove_non_images nt_casefold listed_backwards magic_decode
              fs_mixed_case ["raw"] ["clean"]) as [out|e] eqn:E;
    [|vm_compute in E; discriminate].
  exists out. split; [reflexivity|]. split.
  - vm_compute in E. injection E as <-. reflexivity.
  - exact (remove_non_images_unlinks_in_order nt_casefold listed_backwards
             listed_backwards_perm magic_decode fs_mixed_case ["raw"] ["clean"]
             out E).
Defined.

Lemma remove_non_images_keeps_dirs_and_outside_witness :
  ∃ out,
    remove_non_images posix_casefold as_listed magic_decode fs_nested ["data"; "raw"] ["data"]
      = Ok out ∧
    (∀ q, fs_nested !! q = Some Dir → fs_after out !! q = Some Dir) ∧
    (∀ q : path, ¬ ["data"] `prefix_of` q → fs_after out !! q = fs_nested !! q).
Proof.
  destruct (remove_non_images posix_casefold as_listed magic_decode fs_nested ["data"; "raw"]
              ["data"]) as [out|e] eqn:E; [|vm_compute in E; discriminate].
  exists out. split; [reflexivity|].
  exact (remove_non_images_keeps_dirs_and_outside posix_casefold as_listed as_listed_perm
           magic_decode fs_nested ["data"; "raw"] ["data"] out E).
Defined.

Lemma remove_non_images_mirrors_images_witness :
  ∃ out,
    remove_non_images posix_casefold as_listed magic_decode fs_apart ["raw"] ["clean"] = Ok out ∧
    fs_after out !! (["clean"] ++ ["apple"; "a.jpg"] : path)
    = Some (File (jpeg Byte.x10)).
Proof.
  destruct (remove_non_images posix_casefold as_listed magic_decode fs_apart ["raw"] ["clean"])
    as [out|e] eqn:E; [|vm_compute in E; discriminate].
  exists out. split; [reflexivity|].
  exact (remove_non_images_mirrors_images posix_casefold as_listed as_listed_perm
           magic_decode fs_apart ["raw"] ["clean"] out ["apple"; "a.jpg"]
           (jpeg Byte.x10) E eq_refl).
Defined.

Lemma get_image_paths_each_file_once_witness :
  ∃ l g', get_image_paths listed_backwards Z lcg_seed lcg_randbelow fs_apart 7
            ["raw"] = Ok (l, g') ∧
          NoDup l ∧
          ∀ p, p ∈ l ↔ is_dir fs_apart ["raw"] = true ∧ strictly_under ["raw"] p
                       ∧ is_file fs_apart p = true.
Proof.
  exact (get_image_paths_each_file_once listed_backwards Z lcg_seed
           lcg_randbelow fs_apart 7 ["raw"] listed_backwards_perm
           lcg_randbelow_lt).
Defined.

Lemma sanitized_tree_loads_witness :
  ∃ out,
    remove_non_images posix_casefold as_listed magic_decode fs_apart ["raw"] ["clean"] = Ok out ∧
    ∃ paths g' data labels,
      get_image_paths listed_backwards Z lcg_seed lcg_randbelow (fs_after out) 7
        ["clean"] = Ok (paths, g') ∧
      get_data_and_labels magic_decode nn_cv2_resize (fs_after out) paths
        = Ok (data, labels) ∧
      length data = length paths ∧ length labels = length paths.
Proof.
  destruct (remove_non_images posix_casefold as_listed magic_decode fs_apart ["raw"] ["clean"])
    as [out|e] eqn:E; [|vm_compute in E; discriminate].
  exists out. split; [reflexivity|].
  apply (sanitized_tree_loads posix_casefold as_listed listed_backwards
           magic_decode
           nn_cv2_resize Z lcg_seed lcg_randbelow fs_apart ["raw"] ["clean"]
           out 7 as_listed_perm listed_backwards_perm lcg_randbelow_lt).
  - discriminate.
  - exact E.
Defined.

Lemma label_encoding_round_trip_witness :
  labels5 !! 1%nat = Some "banana" ∧
  ∃ k, fit_transform labels5 !! 1%nat = Some k ∧
       (k < length (remove_dups labels5))%nat ∧
       classes labels5 !! k = Some "banana" ∧
       NoDup (classes labels5) ∧ Sorted string_le (classes labels5).
Proof.
  split; [reflexivity|].
  exact (label_encoding_round_trip labels5 1 "banana" eq_refl).
Defined.

Lemma get_model_input_partition_witness :
  ∃ mi, get_model_input reversed_indices data5 labels5 = Ok mi ∧
        x_val mi ++ x_train mi ≡ₚ data5.
Proof.
  destruct (get_model_input reversed_indices data5 labels5) as [mi|e] eqn:E;
    [|vm_compute in E; discriminate].
  exists mi. split; [reflexivity|].
  exact (get_model_input_partition reversed_indices reversed_indices_perm
           data5 labels5 mi E).
Defined.

Lemma get_model_input_labels_follow_samples_witness :
  ∃ mi,
    get_model_input reversed_indices data_same labels_ab = Ok mi ∧
    let row lbl := one_hot (index_of (classes labels_ab) lbl)
                           (length (remove_dups labels_ab)) in
    length (y_train mi) = length (x_train mi) ∧
    length (y_val mi) = length (x_val mi) ∧
    Forall2 (λ i (ar : tensor * list Z),
               data_same !! i = Some ar.1 ∧
               ∃ lbl, labels_ab !! i = Some lbl ∧ ar.2 = row lbl)
            (reversed_indices 42 (length data_same))
            (zip (x_val mi ++ x_train mi) (y_val mi ++ y_train mi)) ∧
    zip (x_val mi ++ x_train mi) (y_val mi ++ y_train mi)
      ≡ₚ zip data_same (row <$> labels_ab).
Proof.
  destruct (get_model_input reversed_indices data_same labels_ab)
    as [mi|e] eqn:E; [|vm_compute in E; discriminate].
  exists mi. split; [reflexivity|].
  exact (get_model_input_labels_follow_samples reversed_indices
           reversed_indices_perm data_same labels_ab mi E).
Defined.

Lemma get_model_input_one_hot_rows_witness :
  ∃ mi, get_model_input reversed_indices data5 labels5 = Ok mi ∧
        Forall (λ r, length r = length (remove_dups labels5) ∧
                     ∃ k, (k < length (remove_dups labels5))%nat ∧
                          ∀ j, (j < length (remove_dups labels5))%nat →
                               r !! j = Some (if decide (j = k) then 1 else 0))
               (y_train mi ++ y_val mi).
Proof.
  destruct (get_model_input reversed_indices data5 labels5) as [mi|e] eqn:E;
    [|vm_compute in E; discriminate].
  exists mi. split; [reflexivity|].
  exact (get_model_input_one_hot_rows reversed_indices data5 labels5 mi E).
Defined.

Lemma get_model_input_succeeds_iff_witness :
  match get_model_input reversed_indices (take 1 data5) (take 1 labels5) with
  | Ok _ => length (take 1 labels5) = length (take 1 data5)
            ∧ (2 ≤ length (take 1 data5))%nat
  | Err e => e = ValueError ∧
             (length (take 1 labels5) ≠ length (take 1 data5)
              ∨ (length (take 1 data5) ≤ 1)%nat)
  end.
Proof.
  exact (get_model_input_succeeds_iff reversed_indices reversed_indices_perm
           (take 1 data5) (take 1 labels5)).
Defined.

Lemma loaded_data_splits_witness :
  ∃ data labels,
    get_data_and_labels magic_decode nn_cv2_resize fs_apart
      [["raw"; "apple"; "a.jpg"]; ["raw"; "apple"; "a.jpg"]] = Ok (data, labels) ∧
    ∃ mi, get_model_input reversed_indices data labels = Ok mi ∧
          (length (x_train mi) + length (x_val mi) = 2)%nat.
Proof.
  destruct (get_data_and_labels magic_decode nn_cv2_resize fs_apart
              [["raw"; "apple"; "a.jpg"]; ["raw"; "apple"; "a.jpg"]])
    as [[data labels]|e] eqn:E; [|vm_compute in E; discriminate].
  exists data, labels. split; [reflexivity|].
  apply (loaded_data_splits reversed_indices reversed_indices_perm magic_decode
           nn_cv2_resize fs_apart
           [["raw"; "apple"; "a.jpg"]; ["raw"; "apple"; "a.jpg"]] data labels E).
  simpl. lia.
Defined.

Lemma train_model_runs (model batch logs flow_state : Type)
    (flow : ImageDataGenerator → list tensor → list (list Z) → Z → flow_state)
    (next_batch : flow_state → batch * flow_state)
    (train_on_batch : model → batch → model * logs)
    (evaluate : model → list tensor → list (list Z) → logs)
    (serialize : model → list Byte.byte) (here : path)
    (m : model) (gen : ImageDataGenerator)
    (x_train : list tensor) (y_train : list (list Z))
    (x_val : list tensor) (y_val : list (list Z)) (b e : option Z)
    (fs : gmap path node) :
  default 32 b ≠ 0 →
  0 < Z.of_nat (length x_train) / default 32 b →
  (∀ q, q `prefix_of` here ++ ["generated_data"; "models"] → is_file fs q = false) →
  is_dir fs (here ++ ["generated_data"; "models"; "model.h5"]) = false →
  ∃ history m' fs',
    train_model model batch logs flow_state flow next_batch train_on_batch
      evaluate serialize here m gen x_train y_train x_val y_val b e fs
    = Ok (history, m', fs').
Proof.
  intros Hb Hsteps Hfree Hpath.
  destruct (run_epochs_spec model batch logs flow_state next_batch
              train_on_batch evaluate (Z.to_nat (default 25 e))
              (Z.to_nat (Z.of_nat (length x_train) / default 32 b)) m
              (flow gen x_train y_train (default 32 b)) x_val y_val)
    as (history & Hrun & _); [lia|].
  destruct (train_model_fit_Ok model batch logs flow_state flow next_batch
              train_on_batch evaluate serialize here m gen x_train y_train
              x_val y_val b e fs _ history Hb Hrun Hfree Hpath)
    as (fs' & Htrain & _).
  by eexists history, _, fs'.
Qed.

Lemma train_model_small_set_raises_witness :
  train_model nat nat nat nat count_flow count_next count_train
    count_evaluate count_serialize ["project"] 0%nat get_image_generator
    data5 (replicate 5 [1; 0]) data5 (replicate 5 [1; 0])
    (Some 8) (Some 25) fs_white = Err KerasError.
Proof.
  apply (train_model_small_set_raises nat nat nat nat count_flow
           count_next count_train count_evaluate count_serialize ["project"]
           0%nat get_image_generator data5 (replicate 5 [1; 0]) data5
           (replicate 5 [1; 0]) 8 25 fs_white).
  - lia.
  - vm_compute. discriminate.
  - lia.
Defined.

Lemma train_model_saves_artifact_witness :
  ∃ history m' fs',
    train_model nat nat nat nat count_flow count_next count_train
      count_evaluate count_serialize ["project"] 0%nat get_image_generator
      data5 (replicate 5 [1; 0]) data5 (replicate 5 [1; 0])
      (Some 2) (Some 3) ∅ = Ok (history, m', fs') ∧
    fs' !! (["project"; "generated_data"; "models"; "model.h5"] : path)
    = Some (File (count_serialize m')) ∧
    is_dir fs' ["project"; "generated_data"; "models"] = true.
Proof.
  destruct (train_model_runs nat nat nat nat count_flow count_next count_train
              count_evaluate count_serialize ["project"] 0%nat
              get_image_generator data5 (replicate 5 [1; 0]) data5
              (replicate 5 [1; 0]) (Some 2) (Some 3) ∅)
    as (history & m' & fs' & E); [done|done|by intros q _|done|].
  exists history, m', fs'. split; [exact E|].
  destruct (train_model_saves_artifact nat nat nat nat count_flow count_next
              count_train count_evaluate count_serialize ["project"] 0%nat
              get_image_generator data5 (replicate 5 [1; 0]) data5
              (replicate 5 [1; 0]) (Some 2) (Some 3) ∅ history m' fs' E)
    as (Hfile & Hdir & _).
  split; [exact Hfile|exact Hdir].
Defined.

Lemma default_run_needs_43_samples_witness :
  (∃ mi,
     get_model_input reversed_indices data5 labels5 = Ok mi ∧
     train_model nat nat nat nat count_flow count_next count_train
       count_evaluate count_serialize ["project"] 0%nat (image_generator mi)
       (x_train mi) (y_train mi) (x_val mi) (y_val mi) None None ∅
     = Err KerasError) ∧
  (∃ mi history m' fs',
     get_model_input reversed_indices data43 labels43 = Ok mi ∧
     train_model nat nat nat nat count_flow count_next count_train
       count_evaluate count_serialize ["project"] 0%nat (image_generator mi)
       (x_train mi) (y_train mi) (x_val mi) (y_val mi) None None ∅
     = Ok (history, m', fs') ∧
     length history = 25%nat ∧
     Forall (λ r, batch_logs nat r ≠ []) history).
Proof.
  split.
  - destruct (get_model_input reversed_indices data5 labels5) as [mi|e] eqn:E;
      [|vm_compute in E; discriminate].
    exists mi. split; [reflexivity|].
    apply (default_run_needs_43_samples reversed_indices nat nat nat nat
             count_flow count_next count_train count_evaluate count_serialize
             ["project"] data5 labels5 mi 0%nat ∅ reversed_indices_perm E).
    simpl. lia.
  - destruct (get_model_input reversed_indices data43 labels43)
      as [mi|e] eqn:E; [|vm_compute in E; discriminate].
    destruct (proj2 (default_run_needs_43_samples reversed_indices nat nat nat
                       nat count_flow count_next count_train count_evaluate
                       count_serialize ["project"] data43 labels43 mi 0%nat ∅
                       reversed_indices_perm E))
      as (history & m' & fs' & Hrun & Hlen & Hsteps).
    + unfold data43. rewrite length_replicate. lia.
    + intros q _. reflexivity.
    + reflexivity.
    + by exists mi, history, m', fs'.
Defined.
